(** * introspection-cli: the cursor engine, the prompt's select handler,
      the Mongo URI helpers and the flag-based credential resolver.

    The development embeds the TypeScript sources shallowly:
    - [components/helpers.ts]   : [down], [up] and the element discriminators;
    - [components/BoxPrompt.tsx]: the select handler and the spinner setters;
    - [introspect/util.ts]      : [sanitizeMongoUri], [populateMongoDatabase];
    - [index.ts]                : [getCredentialsByFlags], [handleMissingArgs].

    Exceptions are explicit: a function that may throw returns a [Result]. *)

From Stdlib Require Import ZArith String Ascii List Lia.
From Equations Require Import Equations.
From stdpp Require Import base decidable option list gmap strings.

Open Scope Z_scope.

(** ** Exceptions and results *)

(** What a [throw] carries: [new Error(message)] of the sources, or the
    [TypeError] the platform raises (reading a property of [undefined],
    [new URL] on an unparsable string). *)
Inductive Exception : Type :=
  | JsError (message : string)
  | JsTypeError.

Inductive Result (A : Type) : Type :=
  | Ok (a : A)
  | Throw (e : Exception).
Arguments Ok {A} a.
Arguments Throw {A} e.

Definition bind {A B : Type} (r : Result A) (k : A -> Result B) : Result B :=
  match r with
  | Ok a => k a
  | Throw e => Throw e
  end.

Notation "x <-! r ;; k" := (bind r (fun x => k))
  (at level 100, r at next level, right associativity, only parsing).

(** [o.prop] on a value that may be [undefined]. *)
Definition defined {A : Type} (o : option A) : Result A :=
  match o with
  | Some a => Ok a
  | None => Throw JsTypeError
  end.

(** [xs[i]] for a number [i] holding an integer, as the cursor of the
    prompt does: [undefined] below zero and from [xs.length] on. *)
Definition at_index {A : Type} (xs : list A) (i : Z) : option A :=
  if bool_decide (0 <= i) then xs !! Z.to_nat i else None.

(** [xs.includes(x)]. *)
Definition includes (xs : list string) (x : string) : bool :=
  bool_decide (x ∈ xs).

(** ** components/types.ts *)

Module Types.

(** ink's [BoxProps], as the sources use it: numeric layout properties. *)
Definition BoxProps : Type := list (string * Z).

Inductive SpinnerState : Type := running | succeeded | failed.

#[global] Instance SpinnerState_eq_dec : EqDecision SpinnerState.
Proof. solve_decision. Defined.

(** [Exclude<SpinnerState, "running">]. *)
Inductive SpinnerOutcome : Type := outcome_succeeded | outcome_failed.

Definition of_outcome (o : SpinnerOutcome) : SpinnerState :=
  match o with
  | outcome_succeeded => succeeded
  | outcome_failed => failed
  end.

(** An [onSelect] callback is opaque to the prompt: it is identified by a
    name; what it does with the callbacks it is given reaches the prompt
    as later events. *)
Definition Callback : Type := string.

Record InputElement : Type := {
  input_label : string;
  input_placeholder : option string;
  input_identifier : string;
  input_mask : option string;
  input_style : option BoxProps }.

Record SelectElement : Type := {
  select_label : string;
  select_value : option string;
  select_description : option string;
  select_onSelect : option Callback;
  select_style : option BoxProps }.

Record CheckboxElement : Type := {
  checkbox_label : string;
  checkbox_identifier : string;
  checkbox_style : option BoxProps }.

Record SeparatorElement : Type := {
  separator_label : option string;
  separator_dividerChar : option string;
  separator_style : option BoxProps }.

Inductive Element : Type :=
  | text_input (e : InputElement)
  | select (e : SelectElement)
  | checkbox (e : CheckboxElement)
  | separator (e : SeparatorElement).

(** The [type] tag of an element. *)
Definition type (e : Element) : string :=
  match e with
  | text_input _ => "text-input"
  | select _ => "select"
  | checkbox _ => "checkbox"
  | separator _ => "separator"
  end.

End Types.
Export Types.

(** ** components/helpers.ts *)

(** The discriminators, on an element that is there (see [hovered] for the
    [obj &&] guard of the sources). *)
Definition isElementInput (obj : Element) : bool :=
  bool_decide (type obj = "text-input").

Definition isElementSelect (obj : Element) : bool :=
  bool_decide (type obj = "select").

Definition isElementCheckbox (obj : Element) : bool :=
  bool_decide (type obj = "checkbox").

Definition isElementSeparator (obj : Element) : bool :=
  bool_decide (type obj = "separator").

(** The [while] loop of [down]: as long as [cursor < length - 1] and the
    next element is a separator, [cursor++].  Reading [.type] of an
    [undefined] element throws. *)
Equations? down_loop (elements : list Element) (cursor : Z) : Result Z
  by wf (Z.to_nat (Z.of_nat (length elements) - 1 - cursor)) lt :=
  down_loop elements cursor
    with decide (cursor < Z.of_nat (length elements) - 1) => {
    | right _ := Ok cursor
    | left _ with at_index elements (cursor + 1) => {
      | None := Throw JsTypeError
      | Some e with includes ["separator"] (type e) => {
        | true := down_loop elements (cursor + 1)
        | false := Ok cursor } } }.
Proof. lia. Qed.

Definition down (cursor : Z) (elements : list Element) : Result Z :=
  let length := Z.of_nat (length elements) in
  cursor <-! down_loop elements cursor ;;
  Ok (if bool_decide (cursor < length - 1) then cursor + 1 else cursor).

(** The [while] loop of [up]: as long as [cursor > 0] and the previous
    element is a separator, [cursor--]. *)
Equations? up_loop (elements : list Element) (cursor : Z) : Result Z
  by wf (Z.to_nat cursor) lt :=
  up_loop elements cursor with decide (cursor > 0) => {
    | right _ := Ok cursor
    | left _ with at_index elements (cursor - 1) => {
      | None := Throw JsTypeError
      | Some e with includes ["separator"] (type e) => {
        | true := up_loop elements (cursor - 1)
        | false := Ok cursor } } }.
Proof. lia. Qed.

Definition up (cursor : Z) (elements : list Element) : Result Z :=
  cursor <-! up_loop elements cursor ;;
  Ok (if bool_decide (cursor > 0) then cursor - 1 else cursor).

(** Whether the element under index [i] is a separator. *)
Definition separator_at (elements : list Element) (i : Z) : bool :=
  match at_index elements i with
  | Some e => isElementSeparator e
  | None => false
  end.

(** Cursor movements of the prompt, applied one after the other. *)
Inductive Move : Type := move_down | move_up.

Definition apply_move (elements : list Element) (cursor : Z) (m : Move) : Result Z :=
  match m with
  | move_down => down cursor elements
  | move_up => up cursor elements
  end.

Fixpoint apply_moves (elements : list Element) (cursor : Z) (ms : list Move)
  : Result Z :=
  match ms with
  | [] => Ok cursor
  | m :: ms' =>
      cursor' <-! apply_move elements cursor m ;;
      apply_moves elements cursor' ms'
  end.

(** Two elements to evaluate the functions on. *)
Definition sample_select (label : string) : Element :=
  select {| select_label := label;
            select_value := None;
            select_description := None;
            select_onSelect := None;
            select_style := None |}.

Definition sample_separator : Element :=
  separator {| separator_label := None;
               separator_dividerChar := None;
               separator_style := None |}.

(** ** components/BoxPrompt.tsx *)

Module BoxPrompt.

(** A form value: the text of an input or the state of a checkbox. *)
Inductive FormValue : Type :=
  | form_string (s : string)
  | form_boolean (b : bool).

(** [!!formValues[identifier]]. *)
Definition truthy (v : option FormValue) : bool :=
  match v with
  | Some (form_string s) => negb (bool_decide (s = ""))
  | Some (form_boolean b) => b
  | None => false
  end.

Record Props : Type := {
  elements : list Element;
  title : option string;
  initialFormValues : option (gmap string FormValue);
  withBackButton : bool }.

Definition backElement : Element :=
  select {| select_label := "Back";
            select_value := None;
            select_description := None;
            select_onSelect := None;
            select_style := Some [("marginTop", 1)] |}.

Definition elementsWithBack (props : Props) : list Element :=
  if withBackButton props then elements props ++ [backElement]
  else elements props.

(** The state of the component: [formValues] and [spinnersByCursor]; the
    cursor has a reducer of its own, [keyHandler]. *)
Record State : Type := {
  formValues : gmap string FormValue;
  spinnersByCursor : gmap nat SpinnerState }.

Definition initialState (props : Props) : State :=
  {| formValues := default ∅ (initialFormValues props);
     spinnersByCursor := ∅ |}.

(** The discriminators of helpers.ts guard against [undefined]
    ([obj && obj.type === ...]); here on the hovered element. *)
Definition hovered (p : Element -> bool) (obj : option Element) : bool :=
  match obj with
  | Some e => p e
  | None => false
  end.

(** The reducer handed to [setCursor] on a key press.  The form is read
    by its own keys: an identifier that names a property every object
    inherits ([constructor], [toString]) reads as absent here. *)
Definition keyHandler (props : Props) (st : State) (actionKey : string)
    (prevCursor : Z) : Result Z :=
  if bool_decide (actionKey = "up") then up prevCursor (elementsWithBack props)
  else if bool_decide (actionKey = "down") then
    down prevCursor (elementsWithBack props)
  else
    let hoveredElement := at_index (elementsWithBack props) prevCursor in
    if bool_decide (actionKey = "next")
       && negb (hovered isElementInput hoveredElement) then
      down prevCursor (elementsWithBack props)
    else if bool_decide (actionKey = "submit")
       && match hoveredElement with
          | Some (text_input e) => truthy (formValues st !! input_identifier e)
          | _ => false
          end then
      down prevCursor (elementsWithBack props)
    else if bool_decide (actionKey = "submit")
       && negb (hovered isElementCheckbox hoveredElement)
       && negb (hovered isElementSelect hoveredElement)
       && negb (hovered isElementInput hoveredElement) then
      down prevCursor (elementsWithBack props)
    else Ok prevCursor.

(** What a handler does to the outside: it calls the element's [onSelect]
    callback (handing it the spinner setters of [elemIndex]) or the
    [onSubmit] of the props. *)
Inductive Effect : Type :=
  | call_onSelect (callback : Callback) (elemIndex : nat) (value : option string)
  | call_onSubmit (formValues : gmap string FormValue)
      (selectedValue : option string) (goBack : bool).

Definition submitPrompt (st : State) (value : option string) (goBack : bool)
  : Effect :=
  call_onSubmit (formValues st) value goBack.

(** The [onSelect] handed to the [SelectItem] of element [e] at
    [elemIndex]. *)
Definition onSelect (st : State) (e : SelectElement) (elemIndex : nat)
    (value : option string) : Effect :=
  match select_onSelect e with
  | Some callback =>
      if negb (bool_decide (spinnersByCursor st !! elemIndex = Some running))
      then call_onSelect callback elemIndex value
      else submitPrompt st value false
  | None => submitPrompt st value false
  end.

Definition onInputChange (st : State) (value : FormValue) (identifier : string)
  : State :=
  {| formValues := <[identifier := value]> (formValues st);
     spinnersByCursor := spinnersByCursor st |}.

Definition addSpinner (spinnerCursor : nat) (st : State) : State :=
  {| formValues := formValues st;
     spinnersByCursor := <[spinnerCursor := running]> (spinnersByCursor st) |}.

Definition removeSpinner (spinnerCursor : nat) (state : SpinnerOutcome)
    (st : State) : State :=
  {| formValues := formValues st;
     spinnersByCursor :=
       <[spinnerCursor := of_outcome state]> (spinnersByCursor st) |}.

(** What reaches the component: an input or checkbox changes, the
    [SelectItem] of an element or the back button is selected, or a
    callback invoked earlier calls one of the functions it was given. *)
Inductive Event : Type :=
  | input_changed (identifier : string) (value : FormValue)
  | item_selected (elemIndex : nat) (value : option string)
  | back_selected
  | startSpinner_called (elemIndex : nat)
  | stopSpinner_called (elemIndex : nat) (state : SpinnerOutcome)
  | submitPrompt_called (value : option string).

(** One event, handled against the state of the last render.  The
    [submitPrompt] a callback was given closes over the form values of the
    render in which its element was selected; [submitPrompt_called] submits
    the values of the last render instead, which are the same only if no
    input changed in between. *)
Definition step (props : Props) (st : State) (ev : Event) : State * list Effect :=
  match ev with
  | input_changed identifier value => (onInputChange st value identifier, [])
  | item_selected elemIndex value =>
      match elements props !! elemIndex with
      | Some (select e) => (st, [onSelect st e elemIndex value])
      | _ => (st, [])
      end
  | back_selected =>
      if withBackButton props then (st, [submitPrompt st None true])
      else (st, [])
  | startSpinner_called elemIndex => (addSpinner elemIndex st, [])
  | stopSpinner_called elemIndex state => (removeSpinner elemIndex state st, [])
  | submitPrompt_called value => (st, [submitPrompt st value false])
  end.

Fixpoint run (props : Props) (st : State) (evs : list Event)
  : State * list Effect :=
  match evs with
  | [] => (st, [])
  | ev :: evs' =>
      let '(st', effects) := step props st ev in
      let '(st'', effects') := run props st' evs' in
      (st'', effects ++ effects')
  end.

(** The invocations of the callback of the element at [elemIndex]. *)
Definition is_invocation (elemIndex : nat) (eff : Effect) : bool :=
  match eff with
  | call_onSelect _ i _ => bool_decide (i = elemIndex)
  | call_onSubmit _ _ _ => false
  end.

Definition invocations (elemIndex : nat) (effects : list Effect) : list Effect :=
  filter (fun eff => is_invocation elemIndex eff = true) effects.

End BoxPrompt.

(** A prompt with a [Test] element whose callback is under way. *)
Definition sample_test : SelectElement :=
  {| select_label := "Test";
     select_value := Some "test";
     select_description := Some "Test the database connection";
     select_onSelect := Some "test";
     select_style := None |}.

Definition sample_props : BoxPrompt.Props :=
  {| BoxPrompt.elements := [sample_separator; select sample_test];
     BoxPrompt.title := None;
     BoxPrompt.initialFormValues := None;
     BoxPrompt.withBackButton := true |}.

Definition sample_running : BoxPrompt.State :=
  BoxPrompt.addSpinner 1 (BoxPrompt.initialState sample_props).

(** ** The platform: [parseInt] and [URL] *)

Module Js.

(** A number as [parseInt] returns it: [NaN] or an integer.  (Beyond
    2^53 the platform rounds to the nearest double; that rounding is
    left out.) *)
Inductive Number : Type :=
  | NaN
  | Int (z : Z).

(** [ToString] of a value that is a string or [undefined]. *)
Definition ToString (v : option string) : string :=
  match v with
  | Some s => s
  | None => "undefined"
  end.

(** [!v] is [false] exactly on a non-empty string. *)
Definition truthy (v : option string) : bool :=
  match v with
  | Some s => negb (bool_decide (s = ""))
  | None => false
  end.

Definition is_white_space (c : ascii) : bool :=
  let n := nat_of_ascii c in
  bool_decide (n = 32 \/ 9 <= n <= 13)%nat.

Fixpoint trim_start (s : string) : string :=
  match s with
  | String c r => if is_white_space c then trim_start r else s
  | EmptyString => s
  end.

Definition digit (c : ascii) : option Z :=
  let n := nat_of_ascii c in
  if bool_decide (48 <= n <= 57)%nat then Some (Z.of_nat n - 48) else None.

(** The value of the longest prefix of decimal digits, [None] when there
    is no digit to start with. *)
Fixpoint digits (acc : option Z) (s : string) : option Z :=
  match s with
  | String c r =>
      match digit c with
      | Some d => digits (Some (10 * default 0 acc + d)) r
      | None => acc
      end
  | EmptyString => acc
  end.

(** [parseInt(v, 10)]: leading white space is skipped, a sign is read,
    then the longest run of digits; no digit gives [NaN]. *)
Definition parseInt (v : option string) : Number :=
  let inputString := ToString v in
  let trimmed := trim_start inputString in
  let '(sign, rest) :=
    match trimmed with
    | String "-"%char r => (-1, r)
    | String "+"%char r => (1, r)
    | _ => (1, trimmed)
    end in
  match digits None rest with
  | Some n => Int (sign * n)
  | None => NaN
  end.

(** [s.slice(start)]. *)
Fixpoint slice (start : nat) (s : string) : string :=
  match start, s with
  | S n, String _ r => slice n r
  | _, _ => s
  end.

(** A parsed URL, by component.  [opaque] marks a URL whose path is not a
    list of segments: no slash follows the colon of the scheme, as in
    [mailto:x] (the "opaque path" of the URL Standard, "cannot be a base"
    in the platform's sources).  [path] is the serialised path, what
    [pathname] reads. *)
Record URL : Type := {
  scheme : string;
  authority : option string;
  opaque : bool;
  path : string;
  query : option string;
  fragment : option string }.

Definition pathname (url : URL) : string := path url.

(** [url.pathname = value].  The setter of the URL Standard returns at
    once on an opaque path ("If this's URL has an opaque path, then
    return"); otherwise it empties the path and parses [value] into it, so
    that the path serialises with a leading slash.  (For a [value] free of
    dot segments and of characters that are percent-encoded, as ["admin"]
    is.) *)
Definition set_pathname (value : string) (url : URL) : URL :=
  if opaque url then url
  else
    {| scheme := scheme url;
       authority := authority url;
       opaque := false;
       path := "/" +:+ match value with
                       | String "/"%char r => r
                       | _ => value
                       end;
       query := query url;
       fragment := fragment url |}.

Definition with_prefix (p : string) (o : option string) : string :=
  match o with
  | Some s => p +:+ s
  | None => ""
  end.

(** [url.toString()]. *)
Definition toString (url : URL) : string :=
  scheme url +:+ ":" +:+ with_prefix "//" (authority url) +:+ path url
    +:+ with_prefix "?" (query url) +:+ with_prefix "#" (fragment url).

(** *** A parser for [new URL(input)]

    It follows the URL Standard on input of the shape
    [scheme:[//authority][path][?query][#fragment]] that is already
    normalised (no white space, dot segments or characters to encode, a
    valid host).  [None] stands for the [TypeError] of an input without
    a scheme. *)

Fixpoint break (stop : ascii -> bool) (s : string) : string * string :=
  match s with
  | String c r =>
      if stop c then (EmptyString, s)
      else let '(a, b) := break stop r in (String c a, b)
  | EmptyString => (EmptyString, EmptyString)
  end.

Definition is_alpha (c : ascii) : bool :=
  let n := nat_of_ascii c in
  bool_decide (65 <= n <= 90 \/ 97 <= n <= 122)%nat.

Definition is_scheme_char (c : ascii) : bool :=
  let n := nat_of_ascii c in
  is_alpha c || bool_decide (48 <= n <= 57 \/ n = 43 \/ n = 45 \/ n = 46)%nat.

Fixpoint forallb_string (p : ascii -> bool) (s : string) : bool :=
  match s with
  | String c r => p c && forallb_string p r
  | EmptyString => true
  end.

Definition valid_scheme (s : string) : bool :=
  match s with
  | String c r => is_alpha c && forallb_string is_scheme_char r
  | EmptyString => false
  end.

Definition lower (c : ascii) : ascii :=
  let n := nat_of_ascii c in
  if bool_decide (65 <= n <= 90)%nat then ascii_of_nat (n + 32) else c.

Fixpoint lowercase (s : string) : string :=
  match s with
  | String c r => String (lower c) (lowercase r)
  | EmptyString => EmptyString
  end.

Definition special (scheme : string) : bool :=
  bool_decide (scheme ∈ ["ftp"; "file"; "http"; "https"; "ws"; "wss"]).

Definition after_mark (s : string) : option string :=
  match s with
  | String _ r => Some r
  | EmptyString => None
  end.

Definition is_char (c d : ascii) : bool := bool_decide (c = d).

(** A parser to evaluate the helpers on: it splits an absolute URL into
    its components and goes no further.  The platform also rejects a
    malformed authority (a list of hosts with ports), strips leading and
    trailing white space and normalises dot segments; the theorems take the
    parser as a parameter and hold for the platform's as well. *)
Definition parse (input : string) : option URL :=
  let '(sch, rest) := break (is_char ":") input in
  match rest with
  | String _ rest =>
      if valid_scheme sch then
        let sch := lowercase sch in
        let '(body, frag) := break (is_char "#") rest in
        let '(hier, qry) := break (is_char "?") body in
        match hier with
        | String "/"%char (String "/"%char r) =>
            let '(auth, p) := break (is_char "/") r in
            Some {| scheme := sch;
                    authority := Some auth;
                    opaque := false;
                    path := if special sch && bool_decide (p = "") then "/" else p;
                    query := after_mark qry;
                    fragment := after_mark frag |}
        | String "/"%char _ =>
            Some {| scheme := sch;
                    authority := None;
                    opaque := false;
                    path := hier;
                    query := after_mark qry;
                    fragment := after_mark frag |}
        | _ =>
            Some {| scheme := sch;
                    authority := None;
                    opaque := true;
                    path := hier;
                    query := after_mark qry;
                    fragment := after_mark frag |}
        end
      else None
  | EmptyString => None
  end.

End Js.

(** ** introspect/util.ts *)

Definition newline : string := String (ascii_of_nat 10) EmptyString.

(** The error of [populateMongoDatabase]. *)
Definition MissingDatabaseError : Exception :=
  JsError ("Please provide a Mongo database in your connection string."
           +:+ newline
           +:+ "Read more here https://docs.mongodb.com/manual/reference/connection-string/").

Record MongoCredentials : Type := {
  mongo_uri : string;
  mongo_database : string }.

Section Util.

(** [new URL(input)] of the platform; [None] when it throws. *)
Variable new_URL : string -> option Js.URL.

Definition construct_URL (input : string) : Result Js.URL :=
  defined (new_URL input).

Definition sanitizeMongoUri (mongoUri : string) : Result string :=
  url <-! construct_URL mongoUri ;;
  let url :=
    if bool_decide (Js.pathname url = "/")
       || bool_decide (String.length (Js.pathname url) = 0%nat)
    then Js.set_pathname "admin" url
    else url in
  Ok (Js.toString url).

Definition populateMongoDatabase (uri : string) (database : option string)
  : Result MongoCredentials :=
  url <-! construct_URL uri ;;
  if (bool_decide (Js.pathname url = "/")
      || bool_decide (String.length (Js.pathname url) = 0%nat))
     && negb (Js.truthy database)
  then Throw MissingDatabaseError
  else
    (* a truthy [database] is a string: [default] only unwraps it *)
    let database :=
      if negb (Js.truthy database) then Js.slice 1 (Js.pathname url)
      else default "" database in
    Ok {| mongo_uri := uri; mongo_database := database |}.

End Util.

(** ** index.ts *)

(** The value [arg] stores under a key: a string or a boolean flag, or the
    positional arguments under ["_"]. *)
Inductive ArgValue : Type :=
  | arg_string (s : string)
  | arg_boolean (b : bool)
  | arg_positional (l : list string).

(** [DatabaseType] of prisma-datamodel. *)
Inductive DatabaseType : Type := mongo | mysql | postgres.

#[global] Instance DatabaseType_eq_dec : EqDecision DatabaseType.
Proof. solve_decision. Defined.

(** [DatabaseCredentials]; a field the object literal does not set, or
    sets to [undefined], is [None]. *)
Record DatabaseCredentials : Type := {
  cred_type : DatabaseType;
  cred_host : option string;
  cred_port : option Js.Number;
  cred_user : option string;
  cred_password : option string;
  cred_database : option string;
  cred_schema : option string;
  cred_uri : option string }.

(** [Object.keys(o)]: each key once.  (The platform lists the keys in the
    order of insertion, the map in an order of its own; the resolver
    filters and counts them, whatever the order.) *)
Definition Object_keys {V : Type} (o : gmap string V) : list string :=
  (map_to_list o).*1.

(** [args[key]] for a key declared [String] in the table handed to [arg]:
    the string under the key, [None] for [undefined]. *)
Definition flag (args : gmap string ArgValue) (key : string) : option string :=
  match args !! key with
  | Some (arg_string s) => Some s
  | _ => None
  end.

Definition requiredPostgresFlags : list string :=
  ["--pg-host"; "--pg-user"; "--pg-password"; "--pg-db"].

Definition requiredMysqlFlags : list string :=
  ["--mysql-host"; "--mysql-user"; "--mysql-password"].

(** The two errors of the resolver, by the message they carry. *)
Definition MutualExclusionError : Exception :=
  JsError "You can't provide both MySQL and Postgres connection flags. Please provide either of both.".

Definition IncompleteGroupError (prefix : string) (missingArgs : list string)
  : Exception :=
  JsError ("If you provide one of the " +:+ prefix
           +:+ "- arguments, you need to provide all of them. The arguments "
           +:+ String.concat ", " missingArgs +:+ " are missing.").

Definition handleMissingArgs (requiredArgs providedArgs : list string)
    (prefix : string) : Result unit :=
  let missingArgs :=
    filter (fun arg => ~ Exists (fun provided => arg = provided) providedArgs)
           requiredArgs in
  Throw (IncompleteGroupError prefix missingArgs).

Section Introspect.

Variable new_URL : string -> option Js.URL.

Definition getCredentialsByFlags (args : gmap string ArgValue)
  : Result (option DatabaseCredentials) :=
  let flagsKeys := Object_keys args in
  let mysqlFlags := filter (fun f => f ∈ requiredMysqlFlags) flagsKeys in
  let postgresFlags := filter (fun f => f ∈ requiredPostgresFlags) flagsKeys in
  if bool_decide (0 < length mysqlFlags)%nat
     && bool_decide (0 < length postgresFlags)%nat
  then Throw MutualExclusionError
  else
    _ <-! (if bool_decide (0 < length mysqlFlags)%nat
              && bool_decide (length mysqlFlags < length requiredMysqlFlags)%nat
           then handleMissingArgs requiredMysqlFlags mysqlFlags "mysql"
           else Ok tt) ;;
    _ <-! (if bool_decide (0 < length postgresFlags)%nat
              && bool_decide
                   (length postgresFlags < length requiredPostgresFlags)%nat
           then handleMissingArgs requiredPostgresFlags postgresFlags "pg"
           else Ok tt) ;;
    if bool_decide (length requiredMysqlFlags <= length mysqlFlags)%nat then
      Ok (Some {| cred_host := flag args "--mysql-host";
                  cred_port := Some (Js.parseInt (flag args "--mysql-port"));
                  cred_user := flag args "--mysql-user";
                  cred_password := flag args "--mysql-password";
                  cred_schema := flag args "--mysql-db";
                  cred_type := mysql;
                  cred_database := None;
                  cred_uri := None |})
    else if bool_decide
              (length requiredPostgresFlags <= length postgresFlags)%nat then
      Ok (Some {| cred_host := flag args "--pg-host";
                  cred_user := flag args "--pg-user";
                  cred_password := flag args "--pg-password";
                  cred_database := flag args "--pg-db";
                  cred_port := Some (Js.parseInt (flag args "--pg-port"));
                  cred_schema := flag args "--pg-schema";
                  cred_type := postgres;
                  cred_uri := None |})
    else if Js.truthy (flag args "--mongo-uri") then
      let uri := default "" (flag args "--mongo-uri") in
      let database := flag args "--mongo-db" in
      credentials <-! populateMongoDatabase new_URL uri database ;;
      uri <-! sanitizeMongoUri new_URL (mongo_uri credentials) ;;
      Ok (Some {| cred_uri := Some uri;
                  cred_schema := Some (mongo_database credentials);
                  cred_type := mongo;
                  cred_host := None;
                  cred_port := None;
                  cred_user := None;
                  cred_password := None;
                  cred_database := None |})
    else Ok None.

End Introspect.

(** *** Vocabulary of the statements *)

(** The two families whose flags come in a required group. *)
Inductive Family : Type := Postgres | MySQL.

Definition required (f : Family) : list string :=
  match f with
  | Postgres => requiredPostgresFlags
  | MySQL => requiredMysqlFlags
  end.

Definition prefix_of (f : Family) : string :=
  match f with
  | Postgres => "pg"
  | MySQL => "mysql"
  end.

Definition other (f : Family) : Family :=
  match f with
  | Postgres => MySQL
  | MySQL => Postgres
  end.

(** The key is in the flag bag. *)
Definition present (args : gmap string ArgValue) (key : string) : Prop :=
  is_Some (args !! key).

(** The keys of [keys] the flag bag lacks, in the order of [keys]. *)
Definition missing (args : gmap string ArgValue) (keys : list string) : list string :=
  filter (fun key => ~ present args key) keys.

(** The result comes from the Mongo branch of [getCredentialsByFlags]: a
    Mongo descriptor, or an exception of one of the two Mongo helpers. *)
Definition from_mongo_branch (r : Result (option DatabaseCredentials)) : Prop :=
  match r with
  | Ok (Some credentials) => cred_type credentials = mongo
  | Ok None => False
  | Throw e => e = MissingDatabaseError \/ e = JsTypeError
  end.

(** Flag bags to evaluate the resolver on. *)
Definition sample_postgres_args : gmap string ArgValue :=
  list_to_map [("_", arg_positional []);
               ("--pg-host", arg_string "h");
               ("--pg-user", arg_string "u");
               ("--pg-password", arg_string "p");
               ("--pg-db", arg_string "d")].

Definition sample_partial_args : gmap string ArgValue :=
  list_to_map [("_", arg_positional []);
               ("--pg-host", arg_string "h");
               ("--pg-user", arg_string "u")].

Definition sample_mixed_args : gmap string ArgValue :=
  list_to_map [("_", arg_positional []);
               ("--pg-host", arg_string "h");
               ("--mysql-host", arg_string "h")].

Definition sample_postgres_mongo_args : gmap string ArgValue :=
  <["--mongo-uri" := arg_string "mongodb://host/db"]> sample_postgres_args.

(** ** components/BoxPrompt.tsx, continued: key presses and what the events
    leave behind *)

(** Key presses one after the other; each is handled by [keyHandler]
    against the state of the render it arrives in. *)
Fixpoint press_keys (props : BoxPrompt.Props) (cursor : Z)
    (presses : list (BoxPrompt.State * string)) : Result Z :=
  match presses with
  | [] => Ok cursor
  | (st, actionKey) :: presses' =>
      cursor' <-! BoxPrompt.keyHandler props st actionKey cursor ;;
      press_keys props cursor' presses'
  end.

(** The value the last [input_changed] of [identifier] carries, if any. *)
Fixpoint last_change (identifier : string) (evs : list BoxPrompt.Event)
  : option BoxPrompt.FormValue :=
  match evs with
  | [] => None
  | ev :: evs' =>
      match last_change identifier evs' with
      | Some v => Some v
      | None =>
          match ev with
          | BoxPrompt.input_changed identifier' v =>
              if bool_decide (identifier' = identifier) then Some v else None
          | _ => None
          end
      end
  end.

(** The state the last spinner call on [elemIndex] leaves, if any. *)
Fixpoint last_spinner (elemIndex : nat) (evs : list BoxPrompt.Event)
  : option SpinnerState :=
  match evs with
  | [] => None
  | ev :: evs' =>
      match last_spinner elemIndex evs' with
      | Some s => Some s
      | None =>
          match ev with
          | BoxPrompt.startSpinner_called i =>
              if bool_decide (i = elemIndex) then Some running else None
          | BoxPrompt.stopSpinner_called i state =>
              if bool_decide (i = elemIndex) then Some (of_outcome state) else None
          | _ => None
          end
      end
  end.

(** ** components/Checkbox.tsx *)

(** The key handler of a checkbox: with the focus, ["submit"] calls
    [onChange(!checked)]; [None] when [onChange] is not called. *)
Definition Checkbox_onKey (checked focus : bool) (action : string) : option bool :=
  if focus && bool_decide (action = "submit") then Some (negb checked) else None.

(** The calls of [onInputChange] a key makes through the checkboxes the
    prompt renders, for the elements from index [elemIndex] on: each has
    [checked = formValues[identifier] || false] and
    [focus = (cursor === elemIndex)]. *)
Fixpoint checkbox_changes (st : BoxPrompt.State) (cursor : Z) (action : string)
    (elemIndex : nat) (elements : list Element) : list (string * bool) :=
  match elements with
  | [] => []
  | e :: elements' =>
      match e with
      | checkbox c =>
          match Checkbox_onKey
                  (BoxPrompt.truthy
                     (BoxPrompt.formValues st !! checkbox_identifier c))
                  (bool_decide (cursor = Z.of_nat elemIndex)) action with
          | Some value => [(checkbox_identifier c, value)]
          | None => []
          end
      | _ => []
      end ++ checkbox_changes st cursor action (S elemIndex) elements'
  end.

(** A key press as the checkboxes of the prompt handle it. *)
Definition press_checkboxes (props : BoxPrompt.Props) (cursor : Z)
    (action : string) (st : BoxPrompt.State) : BoxPrompt.State :=
  foldl (fun st' change =>
           BoxPrompt.onInputChange st' (BoxPrompt.form_boolean change.2) change.1)
        st (checkbox_changes st cursor action 0 (BoxPrompt.elements props)).

(** ** index.tsx *)

Module Wizard.


(** The literals of the two element lists, by kind. *)
Definition input (identifier label placeholder : string) (mask : option string)
    (style : option BoxProps) : Element :=
  text_input {| input_label := label;
                input_placeholder := Some placeholder;
                input_identifier := identifier;
                input_mask := mask;
                input_style := style |}.

Definition elements : list Element :=
  [ input "host" "Host:" "localhost" None None;
    input "port" "Port:" "5423" None None;
    input "user" "User:" "my_db_user" None None;
    input "password" "Password:" "my_db_password" (Some "*") None;
    input "database" "Database:" "my_db_name" None (Some [("marginBottom", 1)]);
    checkbox {| checkbox_label := "Enable SSL ?";
                checkbox_identifier := "ssl";
                checkbox_style := Some [("marginBottom", 1)] |};
    separator {| separator_label := None;
                 separator_dividerChar := Some "-";
                 separator_style := Some [("marginBottom", 1)] |};
    select {| select_label := "Test";
              select_value := Some "test";
              select_description := Some "Test the database connection";
              select_onSelect := Some "Test";
              select_style := None |};
    select {| select_label := "Connection";
              select_value := Some "connection";
              select_description := Some "Start the introspection";
              select_onSelect := Some "Connection";
              select_style := None |} ].

Definition choice (label value description : string) : Element :=
  select {| select_label := label;
            select_value := Some value;
            select_description := Some description;
            select_onSelect := None;
            select_style := None |}.

(** The list [CHOOSE_DB] (the name is also a step's, below). *)
Definition CHOOSE_DB_elements : list Element :=
  [ choice "Postgres" "postgres" "MySQL compliant databases like MySQL or MariaDB";
    choice "MySQL" "mysql" "PostgreSQL database";
    choice "MongoDB" "mongodb" "Mongo Database" ].

Inductive Steps : Type := CHOOSE_DB | CONNECT.

(** The state of the [Introspection] component. *)
Record Introspection : Type := {
  step : Steps;
  credentials : gmap string BoxPrompt.FormValue }.

Definition initial : Introspection :=
  {| step := CHOOSE_DB; credentials := ∅ |}.

(** The props of the [Prompt] the component renders. *)
Definition props (w : Introspection) : BoxPrompt.Props :=
  match step w with
  | CHOOSE_DB =>
      {| BoxPrompt.elements := CHOOSE_DB_elements;
         BoxPrompt.title := Some "What kind of database do you want to introspect?";
         BoxPrompt.initialFormValues := None;
         BoxPrompt.withBackButton := false |}
  | CONNECT =>
      {| BoxPrompt.elements := elements;
         BoxPrompt.title := Some "Enter the Postgres credentials";
         BoxPrompt.initialFormValues := Some (credentials w);
         BoxPrompt.withBackButton := true |}
  end.

(** [{ ...o, [key]: value }] for a [value] that may be [undefined]: a key
    set to [undefined] reads as a key that is not there. *)
Definition assign (key : string) (value : option BoxPrompt.FormValue)
    (o : gmap string BoxPrompt.FormValue) : gmap string BoxPrompt.FormValue :=
  match value with
  | Some v => <[key := v]> o
  | None => delete key o
  end.

(** The [onSubmit] of the prompt of the step; with it, what is written by
    [console.log] (the credentials, which [JSON.stringify] prints). *)
Definition onSubmit (w : Introspection)
    (formValues : gmap string BoxPrompt.FormValue)
    (selectedValue : option string) (goBack : bool)
  : Introspection * list (gmap string BoxPrompt.FormValue) :=
  match step w with
  | CHOOSE_DB =>
      ({| step := CONNECT;
          credentials :=
            assign "type" (BoxPrompt.form_string <$> selectedValue) (credentials w) |},
       [])
  | CONNECT =>
      (* [{ ...credentials, ...formValues }]: the form values win *)
      let allCredentials := formValues ∪ credentials w in
      if goBack then ({| step := CHOOSE_DB; credentials := allCredentials |}, [])
      else ({| step := CONNECT; credentials := allCredentials |}, [allCredentials])
  end.

End Wizard.

(** ** index.ts, continued *)

(** The keys [getCredentialsByFlags] reads, by [Object.keys] against the
    two required groups or by name. *)
Definition readFlags : list string :=
  requiredPostgresFlags ++ requiredMysqlFlags
    ++ ["--pg-port"; "--pg-schema"; "--mysql-port"; "--mysql-db";
        "--mongo-uri"; "--mongo-db"].

(** How [getConnectorWithDatabase] of [Introspect] goes on from the flags,
    up to its first call into the connector library: it hands over to the
    interactive prompt, or prints a line and exits, or connects with the
    credentials of the flags. *)
Inductive Continuation : Type :=
  | promptIntrospectionInteractively
  | exit (printed : string) (code : Z)
  | getConnectedConnectorFromCredentials (credentialsByFlag : DatabaseCredentials).

Section IntrospectCommand.

Variable new_URL : string -> option Js.URL.

Definition getConnectorWithDatabase_start (args : gmap string ArgValue)
  : Result Continuation :=
  credentialsByFlag <-! getCredentialsByFlags new_URL args ;;
  match credentialsByFlag with
  | None => Ok promptIntrospectionInteractively
  | Some credentialsByFlag =>
      if negb (Js.truthy (cred_schema credentialsByFlag))
      then Ok (exit "Please provide a database name" 1)
      else Ok (getConnectedConnectorFromCredentials credentialsByFlag)
  end.

End IntrospectCommand.

Definition sample_mysql_args : gmap string ArgValue :=
  list_to_map [("_", arg_positional []);
               ("--mysql-host", arg_string "h");
               ("--mysql-user", arg_string "u");
               ("--mysql-password", arg_string "p");
               ("--mysql-db", arg_string "d")].

Definition sample_mongo_args : gmap string ArgValue :=
  list_to_map [("_", arg_positional []);
               ("--mongo-uri", arg_string "mongodb://host/");
               ("--mongo-db", arg_string "shop")].

(** ** introspect/util.ts, continued *)

(** The names every object literal inherits from [Object.prototype]:
    [replaceMap[name]] reads a function (an object for [__proto__]), not
    [undefined]. *)
Definition Object_prototype : list string :=
  ["constructor"; "hasOwnProperty"; "isPrototypeOf"; "propertyIsEnumerable";
   "toLocaleString"; "toString"; "valueOf"; "__proto__";
   "__defineGetter__"; "__defineSetter__"; "__lookupGetter__"; "__lookupSetter__"].

(** What the [host] of the result holds: a string, or what was read from
    [Object.prototype] under the name. *)
Inductive Host : Type :=
  | host_string (s : string)
  | host_inherited (name : string).

(** [replaceMap[key]]. *)
Definition replaceMap (key : string) : option Host :=
  if bool_decide (key = "host.docker.internal") then Some (host_string "localhost")
  else if bool_decide (key = "docker.for.mac.localhost") then
    Some (host_string "localhost")
  else if bool_decide (key ∈ Object_prototype) then Some (host_inherited key)
  else None.

(** [{ ...credentials, host }] for a host that is a string or [undefined]. *)
Definition with_host (host : option string) (credentials : DatabaseCredentials)
  : DatabaseCredentials :=
  {| cred_type := cred_type credentials;
     cred_host := host;
     cred_port := cred_port credentials;
     cred_user := cred_user credentials;
     cred_password := cred_password credentials;
     cred_database := cred_database credentials;
     cred_schema := cred_schema credentials;
     cred_uri := cred_uri credentials |}.

(** What [replaceLocalDockerHost] returns: credentials, or the credentials
    it was given but for the host, which is what [Object.prototype] holds
    under [name]. *)
Inductive HostReplaced : Type :=
  | replaced (credentials : DatabaseCredentials)
  | host_inherited_from_prototype (name : string) (credentials : DatabaseCredentials).

Definition replaceLocalDockerHost (credentials : DatabaseCredentials) : HostReplaced :=
  if Js.truthy (cred_host credentials) then
    let host := default "" (cred_host credentials) in
    match replaceMap host with
    | Some (host_string h) => replaced (with_host (Some h) credentials)
    | Some (host_inherited name) => host_inherited_from_prototype name credentials
    | None => replaced (with_host (Some host) credentials)
    end
  else replaced credentials.

Definition quote : string := String (ascii_of_nat 34) EmptyString.

(** [ConnectorData], without the connector and its [disconnect], which the
    function hands on as it gets them. *)
Record ConnectorData : Type := {
  data_databaseType : DatabaseType;
  data_databaseName : string }.

Section Connector.

(** [connector.listSchemas()]: the schemas, or the message of the error it
    rejects with. *)
Variable listSchemas : string + list string.

(** [endpointDialog.selectSchema(schemas)]. *)
Variable selectSchema : list string -> Result string.

Definition getConnectorWithDatabase (databaseType : DatabaseType)
    (databaseName : option string) (interactive : bool) : Result ConnectorData :=
  schemas <-! match listSchemas with
              | inr schemas => Ok schemas
              | inl message =>
                  Throw (JsError ("Could not connect to database. " +:+ message))
              end ;;
  if negb (Js.truthy databaseName) && negb interactive then
    Throw (JsError "Please provide a database name")
  else if Js.truthy databaseName
          && negb (includes schemas (default "" databaseName)) then
    let schemaWord :=
      if bool_decide (databaseType = postgres) then "schema" else "database" in
    Throw (JsError ("The provided " +:+ schemaWord +:+ " " +:+ quote
                    +:+ default "" databaseName +:+ quote
                    +:+ " does not exist. The following are available: "
                    +:+ String.concat ", " schemas))
  else
    databaseName <-! (if negb (Js.truthy databaseName) then selectSchema schemas
                      else Ok (default "" databaseName)) ;;
    Ok {| data_databaseType := databaseType; data_databaseName := databaseName |}.

End Connector.

(** *** [URLSearchParams]

    The pairs of a query, as the platform parses them: the query is split
    on [&], empty pieces are dropped, the name ends at the first [=], [+]
    stands for a space and [%XX] for a byte.  Names are compared byte by
    byte, which is how UTF-8 text compares. *)
Module JsSearch.

Definition hex (c : ascii) : option nat :=
  let n := nat_of_ascii c in
  if bool_decide (48 <= n <= 57)%nat then Some (n - 48)%nat
  else if bool_decide (65 <= n <= 70)%nat then Some (n - 55)%nat
  else if bool_decide (97 <= n <= 102)%nat then Some (n - 87)%nat
  else None.

Fixpoint percent_decode (s : string) : string :=
  match s with
  | EmptyString => EmptyString
  | String c s' =>
      if bool_decide (c = "%"%char) then
        match s' with
        | String a (String b r) =>
            match hex a, hex b with
            | Some x, Some y => String (ascii_of_nat (16 * x + y)) (percent_decode r)
            | _, _ => String c (percent_decode s')
            end
        | _ => String c (percent_decode s')
        end
      else String c (percent_decode s')
  end.

Fixpoint plus_to_space (s : string) : string :=
  match s with
  | EmptyString => EmptyString
  | String c s' =>
      String (if bool_decide (c = "+"%char) then " "%char else c) (plus_to_space s')
  end.

(** The pieces of [s] between the occurrences of [sep]. *)
Fixpoint split (sep : ascii) (s : string) : list string :=
  match s with
  | EmptyString => [EmptyString]
  | String c s' =>
      if bool_decide (c = sep) then EmptyString :: split sep s'
      else match split sep s' with
           | piece :: pieces => String c piece :: pieces
           | [] => [String c EmptyString]
           end
  end.

Definition pair_of (piece : string) : string * string :=
  let '(name, rest) := Js.break (Js.is_char "=") piece in
  (percent_decode (plus_to_space name),
   percent_decode (plus_to_space (default "" (Js.after_mark rest)))).

Definition searchParams (url : Js.URL) : list (string * string) :=
  pair_of <$> filter (fun piece => piece <> "") (split "&" (default "" (Js.query url))).

(** [params.has(name)]. *)
Definition has (params : list (string * string)) (name : string) : bool :=
  bool_decide (name ∈ params.*1).

End JsSearch.

Section UtilMore.

Variable new_URL : string -> option Js.URL.

Definition hasAuthSource (uri : string) : Result bool :=
  url <-! construct_URL new_URL uri ;;
  Ok (JsSearch.has (JsSearch.searchParams url) "authSource").

End UtilMore.

Definition sample_host_credentials (host : string) : DatabaseCredentials :=
  {| cred_type := postgres;
     cred_host := Some host;
     cred_port := Some (Js.Int 5432);
     cred_user := Some "u";
     cred_password := Some "p";
     cred_database := Some "d";
     cred_schema := Some "public";
     cred_uri := None |}.

(** The URL [sanitizeMongoUri] serialises: the URL it parsed, after the
    assignment to [pathname] when the path is empty or ["/"]. *)
Definition sanitized (url : Js.URL) : Js.URL :=
  if bool_decide (Js.pathname url = "/" \/ Js.pathname url = "")
  then Js.set_pathname "admin" url
  else url.

(** *** [encodeURIComponent]

    A string stands for its UTF-8 bytes; every byte but the letters, the
    digits and [- _ . ! ~ * ' ( )] is written [%XX], in upper case. *)
Module JsUri.

Definition unreserved (c : ascii) : bool :=
  let n := nat_of_ascii c in
  bool_decide (48 <= n <= 57 \/ 65 <= n <= 90 \/ 97 <= n <= 122)%nat
  || bool_decide (n ∈ [45; 95; 46; 33; 126; 42; 39; 40; 41]%nat).

Definition hex_digit (n : nat) : ascii :=
  if bool_decide (n < 10)%nat then ascii_of_nat (48 + n) else ascii_of_nat (55 + n).

Fixpoint encodeURIComponent (s : string) : string :=
  match s with
  | EmptyString => EmptyString
  | String c r =>
      if unreserved c then String c (encodeURIComponent r)
      else
        let n := nat_of_ascii c in
        String "%" (String (hex_digit (n / 16))
                      (String (hex_digit (n mod 16)) (encodeURIComponent r)))
  end.

End JsUri.

(** [devPrefix], from [process.env.ENV]. *)
Definition devPrefix (ENV : option string) : string :=
  if bool_decide (ENV = Some "DEV") then "dev." else "".

Definition consoleURL (ENV : option string) (token : string)
    (projectName : option string) : string :=
  "https://" +:+ devPrefix ENV +:+ "console.graph.cool/token?token=" +:+ token
    +:+ (if Js.truthy projectName
         then "&redirect=/" +:+ JsUri.encodeURIComponent (default "" projectName)
         else "").

(** * Properties *)

(** *** The loops of [down] and [up] *)

Lemma at_index_is_Some {A : Type} (xs : list A) (i : Z) :
  0 <= i < Z.of_nat (length xs) -> is_Some (at_index xs i).
Proof.
  intros Hi. unfold at_index. rewrite bool_decide_eq_true_2 by lia.
  apply lookup_lt_is_Some. lia.
Qed.

Lemma includes_separator (e : Element) :
  includes ["separator"] (type e) = isElementSeparator e.
Proof. destruct e; reflexivity. Qed.

Lemma separator_at_includes (elements : list Element) (i : Z) (e : Element) :
  at_index elements i = Some e ->
  separator_at elements i = includes ["separator"] (type e).
Proof. intros H. unfold separator_at. now rewrite H, includes_separator. Qed.

(** The loop of [down] stops on the last index, or just before the first
    element after [cursor] that is no separator. *)
Lemma down_loop_spec (elements : list Element) (cursor : Z) :
  -1 <= cursor ->
  exists c, down_loop elements cursor = Ok c /\ cursor <= c /\
    (c < Z.of_nat (length elements) - 1 -> separator_at elements (c + 1) = false) /\
    (forall i, cursor < i <= c -> separator_at elements i = true) /\
    c <= Z.max cursor (Z.of_nat (length elements) - 1).
Proof.
  funelim (down_loop elements cursor); intros Hc.
  - exists cursor. repeat split; lia.
  - destruct (at_index_is_Some elements (cursor + 1)) as [e He]; [lia|].
    congruence.
  - destruct H as (c & Hr & Hle & Hnext & Hsep & Hmax); [lia|].
    exists c. repeat split; [exact Hr | lia | exact Hnext | | lia].
    intros i Hi. destruct (decide (i = cursor + 1)) as [->|Hne].
    + erewrite separator_at_includes by eassumption. assumption.
    + apply Hsep. lia.
  - exists cursor. repeat split; try lia.
    intros _. erewrite separator_at_includes by eassumption. assumption.
Qed.

Lemma up_loop_spec (elements : list Element) (cursor : Z) :
  cursor <= Z.of_nat (length elements) ->
  exists c, up_loop elements cursor = Ok c /\ c <= cursor /\
    (c > 0 -> separator_at elements (c - 1) = false) /\
    (forall i, c <= i < cursor -> separator_at elements i = true) /\
    Z.min cursor 0 <= c.
Proof.
  funelim (up_loop elements cursor); intros Hc.
  - exists cursor. repeat split; lia.
  - destruct (at_index_is_Some elements (cursor - 1)) as [e He]; [lia|].
    congruence.
  - destruct H as (c & Hr & Hle & Hnext & Hsep & Hmin); [lia|].
    exists c. repeat split; [exact Hr | lia | exact Hnext | | lia].
    intros i Hi. destruct (decide (i = cursor - 1)) as [->|Hne].
    + erewrite separator_at_includes by eassumption. assumption.
    + apply Hsep. lia.
  - exists cursor. repeat split; try lia.
    intros _. erewrite separator_at_includes by eassumption. assumption.
Qed.

(** [down] on a cursor of the list: where it lands. *)
Lemma down_spec (elements : list Element) (cursor : Z) :
  0 <= cursor <= Z.of_nat (length elements) - 1 ->
  exists c, down cursor elements = Ok c /\
    cursor <= c <= Z.of_nat (length elements) - 1 /\
    (forall i, cursor < i < c -> separator_at elements i = true) /\
    ((cursor < c /\ separator_at elements c = false) \/
     (c = Z.of_nat (length elements) - 1 /\
      forall i, cursor < i -> i <= c -> separator_at elements i = true)).
Proof.
  intros Hc. unfold down.
  destruct (down_loop_spec elements cursor) as (c & -> & Hle & Hnext & Hsep & Hmax);
    [lia|]. cbn.
  case_bool_decide as Hlt.
  - exists (c + 1). repeat split; try lia.
    + intros i Hi. apply Hsep. lia.
    + left. split; [lia | now apply Hnext].
  - exists c. repeat split; try lia.
    + intros i Hi. apply Hsep. lia.
    + right. split; [lia|]. intros i H1 H2. apply Hsep. lia.
Qed.

(** [up] on a cursor of the list: where it lands. *)
Lemma up_spec (elements : list Element) (cursor : Z) :
  0 <= cursor <= Z.of_nat (length elements) - 1 ->
  exists c, up cursor elements = Ok c /\
    0 <= c <= cursor /\
    (forall i, c < i < cursor -> separator_at elements i = true) /\
    ((c < cursor /\ separator_at elements c = false) \/
     (c = 0 /\ forall i, c <= i -> i < cursor -> separator_at elements i = true)).
Proof.
  intros Hc. unfold up.
  destruct (up_loop_spec elements cursor) as (c & -> & Hle & Hnext & Hsep & Hmin);
    [lia|]. cbn.
  case_bool_decide as Hlt.
  - exists (c - 1). repeat split; try lia.
    + intros i Hi. apply Hsep. lia.
    + left. split; [lia | now apply Hnext].
  - exists c. repeat split; try lia.
    + intros i Hi. apply Hsep. lia.
    + right. split; [lia|]. intros i H1 H2. apply Hsep. lia.
Qed.

(** *** The cursor under repeated moves *)

Section Cursor.

Variable elements : list Element.

Local Abbreviation last_index := (Z.of_nat (length elements) - 1).

(** One move from a cursor of the list: it succeeds, stays in the list,
    and lands off a separator when neither end of the list is one. *)
Lemma apply_move_in_list (cursor : Z) (m : Move) :
  0 <= cursor <= last_index ->
  exists c, apply_move elements cursor m = Ok c /\
    0 <= c <= last_index /\
    (separator_at elements 0 = false ->
     separator_at elements last_index = false ->
     separator_at elements c = false).
Proof.
  intros Hc. destruct m; cbn.
  - destruct (down_spec elements cursor Hc) as (c & -> & Hin & _ & Hland).
    exists c. split; [reflexivity|]. split; [lia|].
    intros _ Hlast. destruct Hland as [[_ ?]|[-> _]]; assumption.
  - destruct (up_spec elements cursor Hc) as (c & -> & Hin & _ & Hland).
    exists c. split; [reflexivity|]. split; [lia|].
    intros Hfirst _. destruct Hland as [[_ ?]|[-> _]]; assumption.
Qed.

(** C1, as amended.  From any cursor of a non-empty list, every sequence
    of [down] and [up] returns a cursor of the list, without exception
    and without wrapping around; and when neither the first nor the last
    element is a separator, the cursor reached by at least one move (or
    by none from a cursor that is on no separator) rests on no
    separator. *)
Theorem moves_keep_cursor_in_list (cursor : Z) (moves : list Move) :
  elements <> [] ->
  0 <= cursor <= last_index ->
  exists c, apply_moves elements cursor moves = Ok c /\
    0 <= c <= last_index /\
    (separator_at elements 0 = false ->
     separator_at elements last_index = false ->
     moves <> [] \/ separator_at elements cursor = false ->
     separator_at elements c = false).
Proof.
  intros _. revert cursor.
  induction moves as [|m ms IH]; intros cursor Hc.
  - exists cursor. cbn. repeat split; try lia.
    intros _ _ [Hne|Hoff]; [congruence | exact Hoff].
  - destruct (apply_move_in_list cursor m Hc) as (c1 & Hstep & Hin1 & Hoff1).
    destruct (IH c1 Hin1) as (c & Hrun & Hin & Hoff).
    exists c. cbn. rewrite Hstep. cbn. repeat split; try lia; [exact Hrun|].
    intros Hfirst Hlast _. apply Hoff; auto.
Qed.

(** Where no element after the cursor is a landing place, [down] goes to
    the last index all the same. *)
Lemma down_without_landing (cursor : Z) :
  0 <= cursor <= last_index ->
  (forall i, cursor < i <= last_index -> separator_at elements i = true) ->
  down cursor elements = Ok last_index.
Proof.
  intros Hc Hsep.
  destruct (down_spec elements cursor Hc) as (c & -> & Hin & _ & Hland).
  f_equal. destruct Hland as [[Hlt Hoff]|[-> _]]; [|reflexivity].
  rewrite Hsep in Hoff by lia. discriminate.
Qed.

(** Likewise [up] goes to index 0. *)
Lemma up_without_landing (cursor : Z) :
  0 <= cursor <= last_index ->
  (forall i, 0 <= i < cursor -> separator_at elements i = true) ->
  up cursor elements = Ok 0.
Proof.
  intros Hc Hsep.
  destruct (up_spec elements cursor Hc) as (c & -> & Hin & _ & Hland).
  f_equal. destruct Hland as [[Hlt Hoff]|[-> _]]; [|reflexivity].
  rewrite Hsep in Hoff by lia. discriminate.
Qed.

(** Where there is a landing place, [down] stops on the first one. *)
Lemma down_lands_on_next (cursor i : Z) :
  0 <= cursor <= last_index ->
  cursor < i <= last_index ->
  separator_at elements i = false ->
  exists c, down cursor elements = Ok c /\ cursor < c <= i /\
    separator_at elements c = false.
Proof.
  intros Hc Hi Hoff.
  destruct (down_spec elements cursor Hc) as (c & -> & Hin & Hskip & Hland).
  exists c. split; [reflexivity|].
  assert (c <= i) as Hle.
  { destruct (decide (c <= i)) as [|Hgt]; [assumption|].
    rewrite Hskip in Hoff by lia. discriminate. }
  destruct Hland as [[Hlt Hc']|[-> Hall]]; [split; [lia | exact Hc']|].
  rewrite Hall in Hoff by lia. discriminate.
Qed.

End Cursor.

(** Down, down, up over a separator between two select elements. *)
Lemma moves_keep_cursor_in_list_witness :
  exists c,
    apply_moves [sample_select "a"; sample_separator; sample_select "b"] 0
      [move_down; move_down; move_up] = Ok c /\
    0 <= c <= 2 /\
    (separator_at [sample_select "a"; sample_separator; sample_select "b"] 0 = false ->
     separator_at [sample_select "a"; sample_separator; sample_select "b"] 2 = false ->
     [move_down; move_down; move_up] <> [] \/
     separator_at [sample_select "a"; sample_separator; sample_select "b"] 0 = false ->
     separator_at [sample_select "a"; sample_separator; sample_select "b"] c = false).
Proof.
  apply (moves_keep_cursor_in_list
           [sample_select "a"; sample_separator; sample_select "b"] 0
           [move_down; move_down; move_up]).
  - discriminate.
  - simpl. lia.
Defined.

(** C1, as stated, fails: on the list of one separator the only cursor of
    the list rests on the separator, whatever the moves. *)
Lemma moves_may_rest_on_separator :
  ~ (forall (elements : list Element) (cursor : Z) (moves : list Move),
        elements <> [] ->
        0 <= cursor <= Z.of_nat (length elements) - 1 ->
        exists c, apply_moves elements cursor moves = Ok c /\
          0 <= c <= Z.of_nat (length elements) - 1 /\
          separator_at elements c = false).
Proof.
  intros H.
  destruct (H [sample_separator] 0 [move_down]) as (c & Hrun & _ & Hoff).
  - discriminate.
  - simpl. lia.
  - vm_compute in Hrun. injection Hrun as <-. vm_compute in Hoff. discriminate.
Qed.

(** C7 on the code: with nothing but separators after (before) the cursor,
    [down] ([up]) does not return the cursor it was given; it returns the
    last (first) index, a separator. *)
Theorem down_up_leave_cursor_on_end_separator :
  down 0 [sample_select "a"; sample_separator] = Ok 1 /\
  separator_at [sample_select "a"; sample_separator] 1 = true /\
  up 1 [sample_separator; sample_select "a"] = Ok 0 /\
  separator_at [sample_separator; sample_select "a"] 0 = true /\
  down 0 [sample_separator; sample_separator] = Ok 1 /\
  up 1 [sample_separator; sample_separator] = Ok 0.
Proof. repeat split; reflexivity. Qed.

(** Off the list the loops read [.type] of [undefined]. *)
Example down_before_list : down (-3) [sample_select "a"] = Throw JsTypeError.
Proof. reflexivity. Qed.

Example up_past_list : up 5 [sample_select "a"] = Throw JsTypeError.
Proof. reflexivity. Qed.

(** *** The select handler and the spinner *)

Section Prompt.

Import BoxPrompt.

Variable props : Props.

(** With a callback on the element and its spinner running, the handler
    skips the callback and goes on to [submitPrompt]. *)
Lemma onSelect_running (st : State) (e : SelectElement) (elemIndex : nat)
    (value : option string) :
  spinnersByCursor st !! elemIndex = Some running ->
  onSelect st e elemIndex value = submitPrompt st value false.
Proof.
  intros Hrun. unfold onSelect. destruct (select_onSelect e); [|reflexivity].
  now rewrite bool_decide_eq_true_2.
Qed.

(** With a callback and a spinner that is not running, the callback is
    called. *)
Lemma onSelect_idle (st : State) (e : SelectElement) (elemIndex : nat)
    (value : option string) (callback : Callback) :
  select_onSelect e = Some callback ->
  spinnersByCursor st !! elemIndex <> Some running ->
  onSelect st e elemIndex value = call_onSelect callback elemIndex value.
Proof.
  intros Hcb Hidle. unfold onSelect. rewrite Hcb.
  now rewrite bool_decide_eq_false_2.
Qed.

(** An event other than [stopSpinner] on [elemIndex] keeps its spinner
    running and calls no callback of that element. *)
Lemma step_running (st : State) (elemIndex : nat) (ev : Event) :
  spinnersByCursor st !! elemIndex = Some running ->
  (forall state, ev <> stopSpinner_called elemIndex state) ->
  spinnersByCursor (step props st ev).1 !! elemIndex = Some running /\
  invocations elemIndex (step props st ev).2 = [].
Proof.
  intros Hrun Hev. destruct ev as [id v|i v| |i|i o|v]; cbn.
  - split; [exact Hrun | reflexivity].
  - destruct (elements props !! i) as [[| e | |]|] eqn:He; cbn;
      try (split; [exact Hrun | reflexivity]).
    split; [exact Hrun|].
    unfold onSelect. destruct (select_onSelect e) as [cb|]; [|reflexivity].
    destruct (decide (i = elemIndex)) as [->|Hne].
    + now rewrite bool_decide_eq_true_2.
    + case_bool_decide; cbn; [reflexivity|].
      rewrite (bool_decide_eq_false_2 _ Hne). reflexivity.
  - destruct (withBackButton props); split; try exact Hrun; reflexivity.
  - split; [|reflexivity].
    destruct (decide (i = elemIndex)) as [->|Hne].
    + apply lookup_insert_eq.
    + rewrite lookup_insert_ne by exact Hne. exact Hrun.
  - split; [|reflexivity].
    destruct (decide (i = elemIndex)) as [->|Hne].
    + exfalso. now apply (Hev o).
    + rewrite lookup_insert_ne by exact Hne. exact Hrun.
  - split; [exact Hrun | reflexivity].
Qed.

Lemma invocations_app (elemIndex : nat) (effects effects' : list Effect) :
  invocations elemIndex (effects ++ effects')
  = invocations elemIndex effects ++ invocations elemIndex effects'.
Proof. apply filter_app. Qed.

Lemma run_cons (st : State) (ev : Event) (evs : list Event) :
  run props st (ev :: evs)
  = ((run props (step props st ev).1 evs).1,
     (step props st ev).2 ++ (run props (step props st ev).1 evs).2).
Proof.
  cbn [run]. destruct (step props st ev) as [st' effects]. cbn [fst snd].
  destruct (run props st' evs) as [st'' effects']. reflexivity.
Qed.

(** Take a select element that carries an [onSelect] callback and whose
    spinner is running.  Selecting it does not call the callback (the
    handler goes on to [submitPrompt]); and over any sequence of events in
    which its spinner is not stopped, however often the element is selected
    again, the callback is not called at all. *)
Theorem running_select_is_not_invoked_again (st : State) (e : SelectElement)
    (callback : Callback) (elemIndex : nat) (evs : list Event) :
  elements props !! elemIndex = Some (select e) ->
  select_onSelect e = Some callback ->
  spinnersByCursor st !! elemIndex = Some running ->
  (forall state, stopSpinner_called elemIndex state ∉ evs) ->
  (forall value,
      step props st (item_selected elemIndex value)
      = (st, [submitPrompt st value false])) /\
  invocations elemIndex (run props st evs).2 = [].
Proof.
  intros He Hcb Hrun Hevs. split.
  - intros value. cbn. rewrite He. now rewrite onSelect_running.
  - clear He Hcb. revert st Hrun.
    induction evs as [|ev evs' IH]; intros st Hrun; [reflexivity|].
    destruct (step_running st elemIndex ev Hrun) as [Hrun' Hnone].
    { intros state ->. apply (Hevs state). left. }
    rewrite run_cons. cbn [snd]. rewrite invocations_app, Hnone.
    apply IH; [|exact Hrun'].
    intros state H. apply (Hevs state). now right.
Qed.

(** C3 on the code: a selection of a select element that carries an
    [onSelect] callback, made while the spinner of the element is running,
    is not dropped.  The handler skips the callback and goes on to
    [submitPrompt(value)]: the [onSubmit] of the props is called with the
    form values, the selected value and [goBack] false, and once more for
    every further selection while the spinner runs. *)
Theorem running_select_submits_the_prompt (st : State) (e : SelectElement)
    (callback : Callback) (elemIndex : nat) (value : option string) (n : nat) :
  elements props !! elemIndex = Some (select e) ->
  select_onSelect e = Some callback ->
  spinnersByCursor st !! elemIndex = Some running ->
  step props st (item_selected elemIndex value)
  = (st, [call_onSubmit (formValues st) value false]) /\
  run props st (replicate n (item_selected elemIndex value))
  = (st, replicate n (call_onSubmit (formValues st) value false)).
Proof.
  intros He Hcb Hrun.
  assert (step props st (item_selected elemIndex value)
          = (st, [call_onSubmit (formValues st) value false])) as Hstep.
  { cbn [step]. rewrite He, (onSelect_running st e elemIndex value Hrun).
    reflexivity. }
  split; [exact Hstep|].
  induction n as [|n IH]; [reflexivity|].
  cbn [replicate]. rewrite run_cons, Hstep. cbn [fst snd]. rewrite IH.
  reflexivity.
Qed.

(** Whatever the key, the reducer of the cursor returns a cursor of the
    list (with the back button, when there is one). *)
Lemma keyHandler_in_list (st : State) (actionKey : string) (prevCursor : Z) :
  0 <= prevCursor <= Z.of_nat (length (elementsWithBack props)) - 1 ->
  exists c, keyHandler props st actionKey prevCursor = Ok c /\
    0 <= c <= Z.of_nat (length (elementsWithBack props)) - 1.
Proof.
  intros Hc.
  destruct (apply_move_in_list (elementsWithBack props) prevCursor move_down Hc)
    as (d & Hd & Hdin & _).
  destruct (apply_move_in_list (elementsWithBack props) prevCursor move_up Hc)
    as (u & Hu & Huin & _).
  cbn in Hd, Hu. unfold keyHandler.
  repeat match goal with
         | |- context [if ?b then _ else _] => destruct b
         end; eauto.
Qed.

(** With the back button the list ends on a select element. *)
Lemma back_button_is_last :
  withBackButton props = true ->
  separator_at (elementsWithBack props)
    (Z.of_nat (length (elementsWithBack props)) - 1) = false.
Proof.
  intros Hback. unfold elementsWithBack, separator_at, at_index. rewrite Hback.
  rewrite length_app. cbn [length].
  rewrite bool_decide_eq_true_2 by lia.
  replace (Z.to_nat (Z.of_nat (length (elements props) + 1) - 1))
    with (length (elements props) + 0)%nat by lia.
  rewrite lookup_app_r by lia.
  replace (length (elements props) + 0 - length (elements props))%nat
    with 0%nat by lia.
  reflexivity.
Qed.

End Prompt.

Lemma running_select_is_not_invoked_again_witness :
  (forall value,
      BoxPrompt.step sample_props sample_running (BoxPrompt.item_selected 1 value)
      = (sample_running, [BoxPrompt.submitPrompt sample_running value false])) /\
  BoxPrompt.invocations 1
    (BoxPrompt.run sample_props sample_running
       [BoxPrompt.item_selected 1 (Some "test");
        BoxPrompt.startSpinner_called 1;
        BoxPrompt.item_selected 1 (Some "test")]).2 = [].
Proof.
  apply (running_select_is_not_invoked_again sample_props sample_running
           sample_test "test" 1).
  - reflexivity.
  - reflexivity.
  - reflexivity.
  - intros state H. repeat (apply elem_of_cons in H as [H|H]; [discriminate|]).
    inversion H.
Defined.

(** The connect step of the wizard: ["Test"] is element 7, and its callback
    starts the spinner of the element and stops it two seconds later. *)
Lemma running_select_submits_the_prompt_witness :
  let props := Wizard.props {| Wizard.step := Wizard.CONNECT;
                               Wizard.credentials := ∅ |} in
  let st := BoxPrompt.addSpinner 7 (BoxPrompt.initialState props) in
  BoxPrompt.step props st (BoxPrompt.item_selected 7 (Some "test"))
  = (st, [BoxPrompt.call_onSubmit (BoxPrompt.formValues st) (Some "test") false]) /\
  BoxPrompt.run props st
    (replicate 2 (BoxPrompt.item_selected 7 (Some "test")))
  = (st, replicate 2
           (BoxPrompt.call_onSubmit (BoxPrompt.formValues st) (Some "test") false)).
Proof.
  cbv zeta.
  apply (running_select_submits_the_prompt
           (Wizard.props {| Wizard.step := Wizard.CONNECT;
                            Wizard.credentials := ∅ |})
           (BoxPrompt.addSpinner 7
              (BoxPrompt.initialState
                 (Wizard.props {| Wizard.step := Wizard.CONNECT;
                                  Wizard.credentials := ∅ |})))
           {| select_label := "Test";
              select_value := Some "test";
              select_description := Some "Test the database connection";
              select_onSelect := Some "Test";
              select_style := None |}
           "Test" 7 (Some "test") 2).
  - reflexivity.
  - reflexivity.
  - reflexivity.
Defined.

(** The whole run in the connect step: the first selection of ["Test"]
    calls its callback, the callback starts the spinner, and the second
    selection submits the step; the [onSubmit] of the step then prints the
    credentials. *)
Example running_select_in_the_connect_step :
  let w := {| Wizard.step := Wizard.CONNECT; Wizard.credentials := ∅ |} in
  (BoxPrompt.run (Wizard.props w) (BoxPrompt.initialState (Wizard.props w))
     [BoxPrompt.item_selected 7 (Some "test");
      BoxPrompt.startSpinner_called 7;
      BoxPrompt.item_selected 7 (Some "test")]).2
  = [BoxPrompt.call_onSelect "Test" 7 (Some "test");
     BoxPrompt.call_onSubmit ∅ (Some "test") false] /\
  Wizard.onSubmit w ∅ (Some "test") false = (w, [∅]).
Proof. split; reflexivity. Qed.

(** The same selections with the spinner at rest call the callback. *)
Example idle_select_is_invoked :
  (BoxPrompt.run sample_props (BoxPrompt.initialState sample_props)
     [BoxPrompt.item_selected 1 (Some "test")]).2
  = [BoxPrompt.call_onSelect "test" 1 (Some "test")].
Proof. reflexivity. Qed.

(** *** The Mongo URI helpers *)

Section MongoUri.

Variable new_URL : string -> option Js.URL.

(** The test both helpers make on the path. *)
Lemma root_test (url : Js.URL) :
  bool_decide (Js.pathname url = "/")
  || bool_decide (String.length (Js.pathname url) = 0%nat) = true
  <-> Js.pathname url = "/" \/ Js.pathname url = "".
Proof.
  rewrite orb_true_iff, !bool_decide_eq_true.
  split; (intros [H|H]; [now left | right]).
  - now destruct (Js.pathname url).
  - now rewrite H.
Qed.

Lemma root_test_false (url : Js.URL) :
  Js.pathname url <> "/" -> Js.pathname url <> "" ->
  bool_decide (Js.pathname url = "/")
  || bool_decide (String.length (Js.pathname url) = 0%nat) = false.
Proof.
  intros H1 H2. apply not_true_is_false. rewrite root_test. tauto.
Qed.

Lemma truthy_false (database : option string) :
  Js.truthy database = false <-> database = None \/ database = Some "".
Proof.
  destruct database as [d|]; cbn.
  - rewrite negb_false_iff, bool_decide_eq_true. split.
    + intros ->. now right.
    + intros [H|H]; congruence.
  - split; [now left | reflexivity].
Qed.

Lemma truthy_true (database : option string) :
  Js.truthy database = true <-> exists d, database = Some d /\ d <> "".
Proof.
  destruct database as [d|]; cbn.
  - rewrite negb_true_iff, bool_decide_eq_false. split.
    + intros H. now exists d.
    + intros (d' & [= <-] & H). exact H.
  - split; [discriminate | now intros (d & H & _)].
Qed.

(** An input the platform does not parse makes both helpers throw its
    [TypeError]. *)
Lemma populateMongoDatabase_unparsable (uri : string) (database : option string) :
  new_URL uri = None ->
  populateMongoDatabase new_URL uri database = Throw JsTypeError.
Proof. intros H. unfold populateMongoDatabase, construct_URL. now rewrite H. Qed.


(** Without a database argument to use, the database is the path
    without its first character. *)
Lemma populateMongoDatabase_from_path (uri : string) (database : option string)
    (url : Js.URL) :
  new_URL uri = Some url ->
  database = None \/ database = Some "" ->
  Js.pathname url <> "/" -> Js.pathname url <> "" ->
  populateMongoDatabase new_URL uri database
  = Ok {| mongo_uri := uri; mongo_database := Js.slice 1 (Js.pathname url) |}.
Proof.
  intros Hurl Hdb H1 H2. unfold populateMongoDatabase, construct_URL.
  rewrite Hurl. cbn. apply truthy_false in Hdb.
  now rewrite Hdb, root_test_false.
Qed.

(** C10.  Where [populateMongoDatabase] succeeds, the [uri] of its result
    is the [uri] it was given. *)
Theorem populateMongoDatabase_keeps_uri (uri : string) (database : option string)
    (credentials : MongoCredentials) :
  populateMongoDatabase new_URL uri database = Ok credentials ->
  mongo_uri credentials = uri.
Proof.
  unfold populateMongoDatabase, construct_URL.
  destruct (new_URL uri) as [url|]; cbn; [|discriminate].
  destruct (_ && _); [discriminate|].
  now intros [= <-].
Qed.

(** C8, as amended.  On a URI whose path is a list of segments (not
    opaque) and is empty or ["/"], [sanitizeMongoUri] returns the same URI
    with path ["/admin"]; on a URI whose path is neither empty nor ["/"]
    it returns the URI with its path as it is. *)
Theorem sanitizeMongoUri_spec (mongoUri : string) (url : Js.URL) :
  new_URL mongoUri = Some url ->
  (Js.pathname url = "/" \/ Js.pathname url = "" -> Js.opaque url = false ->
   exists url', sanitizeMongoUri new_URL mongoUri = Ok (Js.toString url') /\
     Js.pathname url' = "/admin" /\
     Js.scheme url' = Js.scheme url /\
     Js.authority url' = Js.authority url /\
     Js.query url' = Js.query url /\
     Js.fragment url' = Js.fragment url) /\
  (Js.pathname url <> "/" -> Js.pathname url <> "" ->
   sanitizeMongoUri new_URL mongoUri = Ok (Js.toString url)).
Proof.
  intros Hurl. unfold sanitizeMongoUri, construct_URL. rewrite Hurl. cbn. split.
  - intros Hroot Hop. apply root_test in Hroot. rewrite Hroot.
    exists (Js.set_pathname "admin" url). split; [reflexivity|].
    unfold Js.set_pathname. rewrite Hop. cbn. repeat split.
  - intros H1 H2. now rewrite root_test_false.
Qed.

(** On an opaque path the setter does nothing: the URI comes back as
    it was. *)
Lemma sanitizeMongoUri_opaque (mongoUri : string) (url : Js.URL) :
  new_URL mongoUri = Some url ->
  Js.opaque url = true ->
  sanitizeMongoUri new_URL mongoUri = Ok (Js.toString url).
Proof.
  intros Hurl Hop. unfold sanitizeMongoUri, construct_URL. rewrite Hurl. cbn.
  unfold Js.set_pathname. rewrite Hop. now destruct (_ || _).
Qed.

End MongoUri.

(** The examples of the specification, on the parser of [Js]. *)
Example sanitize_no_path :
  sanitizeMongoUri Js.parse "mongodb://host" = Ok "mongodb://host/admin".
Proof. reflexivity. Qed.

Example sanitize_keeps_path :
  sanitizeMongoUri Js.parse "mongodb://host/mydb" = Ok "mongodb://host/mydb".
Proof. reflexivity. Qed.

Example populate_root_no_database :
  populateMongoDatabase Js.parse "mongodb://host/" None = Throw MissingDatabaseError.
Proof. reflexivity. Qed.

Example populate_from_path :
  populateMongoDatabase Js.parse "mongodb://host/mydb" None
  = Ok {| mongo_uri := "mongodb://host/mydb"; mongo_database := "mydb" |}.
Proof. reflexivity. Qed.

Example populate_explicit :
  populateMongoDatabase Js.parse "mongodb://host/" (Some "explicit")
  = Ok {| mongo_uri := "mongodb://host/"; mongo_database := "explicit" |}.
Proof. reflexivity. Qed.


Lemma populateMongoDatabase_keeps_uri_witness :
  mongo_uri {| mongo_uri := "mongodb://host/mydb"; mongo_database := "mydb" |}
  = "mongodb://host/mydb".
Proof.
  apply (populateMongoDatabase_keeps_uri Js.parse "mongodb://host/mydb" None).
  reflexivity.
Defined.

Lemma sanitizeMongoUri_spec_witness :
  exists url',
    sanitizeMongoUri Js.parse "mongodb://host/?ssl=true" = Ok (Js.toString url') /\
    Js.pathname url' = "/admin" /\
    Js.scheme url' = "mongodb" /\
    Js.authority url' = Some "host" /\
    Js.query url' = Some "ssl=true" /\
    Js.fragment url' = None.
Proof.
  apply (proj1 (sanitizeMongoUri_spec Js.parse "mongodb://host/?ssl=true"
                  {| Js.scheme := "mongodb";
                     Js.authority := Some "host";
                     Js.opaque := false;
                     Js.path := "/";
                     Js.query := Some "ssl=true";
                     Js.fragment := None |} eq_refl)).
  - left. reflexivity.
  - reflexivity.
Defined.


(** C8, as stated, fails on a URI with an opaque path: ["mongodb:"] has the
    empty path and comes back unchanged. *)
Lemma sanitizeMongoUri_opaque_path :
  ~ (forall (mongoUri : string) (url : Js.URL),
        Js.parse mongoUri = Some url ->
        Js.pathname url = "/" \/ Js.pathname url = "" ->
        exists url', sanitizeMongoUri Js.parse mongoUri = Ok (Js.toString url') /\
          Js.pathname url' = "/admin" /\
          Js.scheme url' = Js.scheme url /\
          Js.authority url' = Js.authority url /\
          Js.query url' = Js.query url /\
          Js.fragment url' = Js.fragment url).
Proof.
  intros H.
  destruct (H "mongodb:" _ eq_refl (or_intror eq_refl))
    as ([s a o p q f] & Hres & Hp & Hs & Ha & Hq & Hf).
  cbn in Hp, Hs, Ha, Hq, Hf. subst. vm_compute in Hres. discriminate.
Qed.

(** *** The flag-based credential resolver *)

Section Keys.

Context {V : Type}.

Lemma elem_of_Object_keys (o : gmap string V) (key : string) :
  key ∈ Object_keys o <-> is_Some (o !! key).
Proof.
  unfold Object_keys. rewrite list_elem_of_fmap. split.
  - intros ([k v] & -> & H). apply elem_of_map_to_list in H. now exists v.
  - intros [v H]. exists (key, v). split; [reflexivity|].
    now apply elem_of_map_to_list.
Qed.

Lemma NoDup_Object_keys (o : gmap string V) : NoDup (Object_keys o).
Proof. apply NoDup_fst_map_to_list. Qed.

End Keys.

Lemma filter_ext_elem {A : Type} (P Q : A -> Prop)
    `{!forall x, Decision (P x)} `{!forall x, Decision (Q x)} (l : list A) :
  (forall x, x ∈ l -> P x <-> Q x) -> filter P l = filter Q l.
Proof.
  induction l as [|a l IH]; intros Hext; [reflexivity|].
  rewrite !filter_cons.
  assert (P a <-> Q a) as Ha by (apply Hext; left).
  rewrite IH by (intros x Hx; apply Hext; now right).
  destruct (decide (P a)), (decide (Q a)); tauto.
Qed.

Section Counting.

Variable args : gmap string ArgValue.

(** The flags of a required group that [Object.keys(args)] holds are as
    many as the keys of the group that [args] holds. *)
Lemma provided_count (group : list string) :
  NoDup group ->
  length (filter (fun f => f ∈ group) (Object_keys args))
  = length (filter (present args) group).
Proof.
  intros Hgroup. apply Permutation_length, NoDup_Permutation.
  - apply NoDup_filter, NoDup_Object_keys.
  - now apply NoDup_filter.
  - intros x. rewrite !list_elem_of_filter, elem_of_Object_keys.
    unfold present. tauto.
Qed.

(** [handleMissingArgs] names the keys of the group that [args] lacks. *)
Lemma handleMissingArgs_missing (group : list string) (prefix : string) :
  handleMissingArgs group (filter (fun f => f ∈ group) (Object_keys args)) prefix
  = Throw (IncompleteGroupError prefix (missing args group)).
Proof.
  unfold handleMissingArgs, missing. do 2 f_equal.
  apply filter_ext_elem. intros x Hx.
  rewrite Exists_exists. unfold present. split.
  - intros Hno Hin. apply Hno. exists x. split; [|reflexivity].
    apply list_elem_of_filter. split; [exact Hx|].
    now apply elem_of_Object_keys.
  - intros Hno (y & Hy & ->). apply Hno.
    apply list_elem_of_filter in Hy as [_ Hy].
    now apply elem_of_Object_keys.
Qed.

Lemma count_positive (group : list string) :
  (exists key, key ∈ group /\ present args key) <->
  (0 < length (filter (present args) group))%nat.
Proof.
  split.
  - intros (key & Hin & Hp).
    assert (key ∈ filter (present args) group) as H
      by (apply list_elem_of_filter; now split).
    destruct (filter (present args) group); [inversion H | cbn; lia].
  - intros H. destruct (filter (present args) group) as [|key l] eqn:E;
      [cbn in H; lia|].
    exists key. apply and_comm, (list_elem_of_filter (present args)).
    rewrite E. left.
Qed.

Lemma count_zero (group : list string) :
  (forall key, key ∈ group -> ~ present args key) <->
  length (filter (present args) group) = 0%nat.
Proof.
  split.
  - intros H. destruct (filter (present args) group) as [|key l] eqn:E;
      [reflexivity|].
    assert (key ∈ filter (present args) group) as Hin by (rewrite E; left).
    apply list_elem_of_filter in Hin as [Hp Hin]. now destruct (H key).
  - intros H key Hin Hp.
    assert (key ∈ filter (present args) group) as Hf
      by (apply list_elem_of_filter; now split).
    destruct (filter (present args) group); [inversion Hf | discriminate].
Qed.

Lemma count_partial (group : list string) :
  (exists key, key ∈ group /\ ~ present args key) <->
  (length (filter (present args) group) < length group)%nat.
Proof.
  split.
  - intros (key & Hin & Hp). now apply (length_filter_lt _ _ key).
  - induction group as [|key l IH]; [cbn; lia|].
    rewrite filter_cons. destruct (decide (present args key)) as [Hp|Hp].
    + cbn [length]. intros H. destruct IH as (k & Hk & Hnp); [lia|].
      exists k. split; [now right | exact Hnp].
    + intros _. exists key. split; [left | exact Hp].
Qed.

Lemma count_full (group : list string) :
  (forall key, key ∈ group -> present args key) <->
  (length group <= length (filter (present args) group))%nat.
Proof.
  split.
  - intros H. destruct (decide (length group
                                <= length (filter (present args) group))%nat)
      as [|Hlt]; [assumption|].
    destruct (proj2 (count_partial group)) as (key & Hin & Hp); [lia|].
    now destruct (Hp (H key Hin)).
  - intros H key Hin. destruct (decide (present args key)) as [|Hp];
      [assumption|].
    assert (length (filter (present args) group) < length group)%nat
      by (apply count_partial; eauto).
    lia.
Qed.

End Counting.

Lemma NoDup_requiredPostgresFlags : NoDup requiredPostgresFlags.
Proof. apply (bool_decide_unpack _). reflexivity. Qed.

Lemma NoDup_requiredMysqlFlags : NoDup requiredMysqlFlags.
Proof. apply (bool_decide_unpack _). reflexivity. Qed.

Ltac resolver_counts :=
  unfold getCredentialsByFlags; cbv zeta;
  rewrite !(provided_count _ _ NoDup_requiredPostgresFlags),
    !(provided_count _ _ NoDup_requiredMysqlFlags),
    !handleMissingArgs_missing;
  change (length requiredMysqlFlags) with 3%nat;
  change (length requiredPostgresFlags) with 4%nat.

Ltac decide_counts :=
  repeat first
    [ rewrite bool_decide_eq_true_2 by lia
    | rewrite bool_decide_eq_false_2 by lia ];
  cbn [andb bind].

Section Resolver.

Variable new_URL : string -> option Js.URL.
Variable args : gmap string ArgValue.

Lemma missing_exactly (group : list string) (key : string) :
  key ∈ missing args group <-> key ∈ group /\ ~ present args key.
Proof. unfold missing. rewrite list_elem_of_filter. tauto. Qed.

Lemma missing_in_order (group : list string) :
  sublist (missing args group) group.
Proof. apply sublist_filter. Qed.

(** C5.  A flag bag with a required Postgres flag and a required MySQL
    flag is rejected with the mutual-exclusion error, whatever else it
    holds. *)
Theorem mixed_families_are_rejected (pgKey mysqlKey : string) :
  pgKey ∈ requiredPostgresFlags ->
  mysqlKey ∈ requiredMysqlFlags ->
  present args pgKey ->
  present args mysqlKey ->
  getCredentialsByFlags new_URL args = Throw MutualExclusionError.
Proof.
  intros Hpg Hmy Hp Hm.
  assert (0 < length (filter (present args) requiredPostgresFlags))%nat
    by (apply count_positive; eauto).
  assert (0 < length (filter (present args) requiredMysqlFlags))%nat
    by (apply count_positive; eauto).
  resolver_counts. decide_counts. reflexivity.
Qed.

(** C4, as amended.  When some but not all required flags of a family are
    in the bag, and no required flag of the other family is, the resolver
    throws the incomplete-group error of that family; the error names the
    required flags that are missing, all of them and nothing else, in the
    order of the required list. *)
Theorem incomplete_group_names_missing_flags (f : Family) :
  (exists key, key ∈ required f /\ present args key) ->
  (exists key, key ∈ required f /\ ~ present args key) ->
  (forall key, key ∈ required (other f) -> ~ present args key) ->
  getCredentialsByFlags new_URL args
  = Throw (IncompleteGroupError (prefix_of f) (missing args (required f))) /\
  (forall key, key ∈ missing args (required f) <->
               key ∈ required f /\ ~ present args key) /\
  sublist (missing args (required f)) (required f).
Proof.
  intros Hsome Hnot Hother.
  split; [|split; [intros key; apply missing_exactly | apply missing_in_order]].
  apply count_positive in Hsome. apply count_partial in Hnot.
  apply count_zero in Hother.
  destruct f; cbn [required other prefix_of] in *;
    change (length requiredMysqlFlags) with 3%nat in *;
    change (length requiredPostgresFlags) with 4%nat in *;
    resolver_counts; decide_counts; reflexivity.
Qed.

(** With the whole Postgres group and no required MySQL flag, the
    resolver returns the Postgres descriptor; its port is [parseInt] of
    the [--pg-port] flag, given or not. *)
Lemma postgres_descriptor :
  (forall key, key ∈ requiredPostgresFlags -> present args key) ->
  (forall key, key ∈ requiredMysqlFlags -> ~ present args key) ->
  getCredentialsByFlags new_URL args
  = Ok (Some {| cred_type := postgres;
                cred_host := flag args "--pg-host";
                cred_port := Some (Js.parseInt (flag args "--pg-port"));
                cred_user := flag args "--pg-user";
                cred_password := flag args "--pg-password";
                cred_database := flag args "--pg-db";
                cred_schema := flag args "--pg-schema";
                cred_uri := None |}).
Proof.
  intros Hpg Hmy. apply count_full in Hpg. apply count_zero in Hmy.
  change (length requiredPostgresFlags) with 4%nat in Hpg.
  resolver_counts. decide_counts. reflexivity.
Qed.

Lemma mutual_exclusion_not_mongo :
  ~ from_mongo_branch (Throw MutualExclusionError).
Proof. intros [H|H]; discriminate H. Qed.

Lemma incomplete_group_not_mongo (prefix : string) (keys : list string) :
  ~ from_mongo_branch (Throw (IncompleteGroupError prefix keys)).
Proof. intros [H|H]; discriminate H. Qed.

(** The Mongo branch is taken exactly when no required flag of either
    family is in the bag and [--mongo-uri] is a non-empty string. *)
Lemma mongo_branch_iff :
  from_mongo_branch (getCredentialsByFlags new_URL args) <->
  (forall key, key ∈ requiredPostgresFlags -> ~ present args key) /\
  (forall key, key ∈ requiredMysqlFlags -> ~ present args key) /\
  Js.truthy (flag args "--mongo-uri") = true.
Proof.
  rewrite !count_zero. resolver_counts.
  set (pg := length (filter (present args) requiredPostgresFlags)).
  set (my := length (filter (present args) requiredMysqlFlags)).
  destruct (decide (0 < my)%nat) as [Hmy|Hmy];
    destruct (decide (0 < pg)%nat) as [Hpg|Hpg].
  - decide_counts.
    split; [intros H; now apply mutual_exclusion_not_mongo in H | lia].
  - destruct (decide (my < 3)%nat); decide_counts.
    + split; [intros H; now apply incomplete_group_not_mongo in H | lia].
    + split; [discriminate | lia].
  - destruct (decide (pg < 4)%nat); decide_counts.
    + split; [intros H; now apply incomplete_group_not_mongo in H | lia].
    + split; [discriminate | lia].
  - decide_counts. destruct (Js.truthy (flag args "--mongo-uri")).
    + split; [intros _; repeat split; lia | intros _].
      destruct (populateMongoDatabase new_URL _ _) as [c|e] eqn:Hpop; cbn.
      * destruct (sanitizeMongoUri new_URL _) as [u|e] eqn:Hsan; cbn;
          [reflexivity|].
        right. unfold sanitizeMongoUri, construct_URL in Hsan.
        destruct (new_URL _); cbn in Hsan; congruence.
      * unfold populateMongoDatabase, construct_URL in Hpop.
        destruct (new_URL _); cbn in Hpop; [|right; congruence].
        destruct (_ && _); [left|]; congruence.
    + cbn. split; [intros [] | intros (_ & _ & ?); discriminate].
Qed.

(** Without a required flag of either family, a non-empty [--mongo-uri] is
    checked by [populateMongoDatabase] as it is and sanitized afterwards:
    the descriptor carries the sanitized URI. *)
Lemma mongo_descriptor (uri sanitized : string) (credentials : MongoCredentials) :
  (forall key, key ∈ requiredPostgresFlags -> ~ present args key) ->
  (forall key, key ∈ requiredMysqlFlags -> ~ present args key) ->
  flag args "--mongo-uri" = Some uri ->
  uri <> "" ->
  populateMongoDatabase new_URL uri (flag args "--mongo-db") = Ok credentials ->
  sanitizeMongoUri new_URL uri = Ok sanitized ->
  getCredentialsByFlags new_URL args
  = Ok (Some {| cred_type := mongo;
                cred_host := None;
                cred_port := None;
                cred_user := None;
                cred_password := None;
                cred_database := None;
                cred_schema := Some (mongo_database credentials);
                cred_uri := Some sanitized |}).
Proof.
  intros Hpg Hmy Huri Hne Hpop Hsan.
  apply count_zero in Hpg. apply count_zero in Hmy.
  assert (Js.truthy (Some uri) = true) as Htruthy
    by (unfold Js.truthy; now rewrite bool_decide_eq_false_2).
  assert (mongo_uri credentials = uri) as Hsame.
  { unfold populateMongoDatabase, construct_URL in Hpop.
    destruct (new_URL uri); cbn [bind defined] in Hpop; [|discriminate].
    destruct (_ && _); [discriminate|]. now injection Hpop as <-. }
  resolver_counts. decide_counts. rewrite Huri, Htruthy.
  change (default "" (Some uri)) with uri.
  rewrite Hpop. cbn [bind]. rewrite Hsame, Hsan. reflexivity.
Qed.

End Resolver.

(** C9.  With the whole Postgres group, no required MySQL flag and
    whatever Mongo flags, the resolver returns the Postgres descriptor and
    no error, every field of it read from the Postgres flags; the Mongo
    flags are not looked at: a bag that differs in [--mongo-uri] and
    [--mongo-db] only gives the same result.  And a result of the Mongo
    branch means that neither required group is in the bag in full. *)
Theorem mongo_flags_yield_to_postgres (new_URL : string -> option Js.URL)
    (args : gmap string ArgValue) :
  ((forall key, key ∈ requiredPostgresFlags -> present args key) ->
   (forall key, key ∈ requiredMysqlFlags -> ~ present args key) ->
   getCredentialsByFlags new_URL args
   = Ok (Some {| cred_type := postgres;
                 cred_host := flag args "--pg-host";
                 cred_port := Some (Js.parseInt (flag args "--pg-port"));
                 cred_user := flag args "--pg-user";
                 cred_password := flag args "--pg-password";
                 cred_database := flag args "--pg-db";
                 cred_schema := flag args "--pg-schema";
                 cred_uri := None |}) /\
   (forall args' : gmap string ArgValue,
      (forall key, key <> "--mongo-uri" -> key <> "--mongo-db" ->
                   args' !! key = args !! key) ->
      getCredentialsByFlags new_URL args' = getCredentialsByFlags new_URL args)) /\
  (from_mongo_branch (getCredentialsByFlags new_URL args) ->
   ~ (forall key, key ∈ requiredPostgresFlags -> present args key) /\
   ~ (forall key, key ∈ requiredMysqlFlags -> present args key)).
Proof.
  split.
  - intros Hpg Hmy. split; [exact (postgres_descriptor new_URL args Hpg Hmy)|].
    intros args' Hsame.
    assert (forall key, key ∈ requiredPostgresFlags ++ requiredMysqlFlags ->
                        args' !! key = args !! key) as Hreq.
    { intros key Hin. apply Hsame; intros ->;
        repeat (apply elem_of_cons in Hin as [Hin|Hin]; [discriminate Hin|]);
        inversion Hin. }
    rewrite (postgres_descriptor new_URL args Hpg Hmy).
    rewrite (postgres_descriptor new_URL args').
    + unfold flag. now rewrite !Hsame by discriminate.
    + intros key Hin. unfold present.
      rewrite Hreq by (apply elem_of_app; now left). now apply Hpg.
    + intros key Hin. unfold present.
      rewrite Hreq by (apply elem_of_app; now right). now apply Hmy.
  - intros Hmongo. apply mongo_branch_iff in Hmongo as (Hpg & Hmy & _).
    split; intros Hall.
    + apply (Hpg "--pg-host"); [|apply Hall]; set_solver.
    + apply (Hmy "--mysql-host"); [|apply Hall]; set_solver.
Qed.

(** Membership and presence on closed lists and bags, by evaluation. *)
Ltac by_evaluation := apply (bool_decide_unpack _); vm_compute; exact I.

Ltac each_key H :=
  repeat (apply elem_of_cons in H as [->|H]; [by_evaluation|]);
  inversion H.

Lemma mixed_families_are_rejected_witness :
  getCredentialsByFlags Js.parse sample_mixed_args = Throw MutualExclusionError.
Proof.
  apply (mixed_families_are_rejected Js.parse sample_mixed_args
           "--pg-host" "--mysql-host"); by_evaluation.
Defined.

(** The example of the specification: [--pg-host] and [--pg-user] alone. *)
Lemma incomplete_group_names_missing_flags_witness :
  getCredentialsByFlags Js.parse sample_partial_args
  = Throw (IncompleteGroupError "pg" (missing sample_partial_args requiredPostgresFlags)) /\
  (forall key, key ∈ missing sample_partial_args requiredPostgresFlags <->
               key ∈ requiredPostgresFlags /\ ~ present sample_partial_args key) /\
  sublist (missing sample_partial_args requiredPostgresFlags) requiredPostgresFlags.
Proof.
  apply (incomplete_group_names_missing_flags Js.parse sample_partial_args Postgres).
  - exists "--pg-host". split; by_evaluation.
  - exists "--pg-db". split; by_evaluation.
  - intros key H. each_key H.
Defined.

Example incomplete_group_example :
  missing sample_partial_args requiredPostgresFlags = ["--pg-password"; "--pg-db"] /\
  getCredentialsByFlags Js.parse sample_partial_args
  = Throw (JsError "If you provide one of the pg- arguments, you need to provide all of them. The arguments --pg-password, --pg-db are missing.").
Proof. split; vm_compute; reflexivity. Qed.

(** C4, as stated, fails when a flag of the other family is in the bag:
    with [--pg-host] and [--mysql-host] the Postgres group is partial, and
    the error is the one of mutual exclusion, no incomplete-group error. *)
Lemma partial_group_with_other_family :
  ~ (forall (args : gmap string ArgValue) (f : Family),
        (exists key, key ∈ required f /\ present args key) ->
        (exists key, key ∈ required f /\ ~ present args key) ->
        getCredentialsByFlags Js.parse args
        = Throw (IncompleteGroupError (prefix_of f) (missing args (required f)))).
Proof.
  intros H. specialize (H sample_mixed_args Postgres).
  replace (getCredentialsByFlags Js.parse sample_mixed_args)
    with (Throw (A := option DatabaseCredentials) MutualExclusionError) in H
    by (vm_compute; reflexivity).
  assert (Throw (A := option DatabaseCredentials) MutualExclusionError
          = Throw (IncompleteGroupError (prefix_of Postgres)
                     (missing sample_mixed_args (required Postgres)))) as E.
  { apply H.
    - exists "--pg-host". split; by_evaluation.
    - exists "--pg-user". split; by_evaluation. }
  discriminate E.
Qed.

Lemma mongo_flags_yield_to_postgres_witness :
  getCredentialsByFlags Js.parse sample_postgres_mongo_args
  = Ok (Some {| cred_type := postgres;
                cred_host := flag sample_postgres_mongo_args "--pg-host";
                cred_port :=
                  Some (Js.parseInt (flag sample_postgres_mongo_args "--pg-port"));
                cred_user := flag sample_postgres_mongo_args "--pg-user";
                cred_password := flag sample_postgres_mongo_args "--pg-password";
                cred_database := flag sample_postgres_mongo_args "--pg-db";
                cred_schema := flag sample_postgres_mongo_args "--pg-schema";
                cred_uri := None |}) /\
  (forall args' : gmap string ArgValue,
     (forall key, key <> "--mongo-uri" -> key <> "--mongo-db" ->
                  args' !! key = sample_postgres_mongo_args !! key) ->
     getCredentialsByFlags Js.parse args'
     = getCredentialsByFlags Js.parse sample_postgres_mongo_args).
Proof.
  apply (proj1 (mongo_flags_yield_to_postgres Js.parse sample_postgres_mongo_args)).
  - intros key H. each_key H.
  - intros key H. each_key H.
Defined.

Example postgres_with_mongo_example :
  getCredentialsByFlags Js.parse sample_postgres_mongo_args
  = getCredentialsByFlags Js.parse sample_postgres_args.
Proof. vm_compute. reflexivity. Qed.

Example mongo_branch_example :
  getCredentialsByFlags Js.parse
    (list_to_map [("_", arg_positional []);
                  ("--mongo-uri", arg_string "mongodb://host")])
  = Throw MissingDatabaseError /\
  getCredentialsByFlags Js.parse
    (list_to_map [("_", arg_positional []);
                  ("--mongo-uri", arg_string "mongodb://host");
                  ("--mongo-db", arg_string "db")])
  = Ok (Some {| cred_type := mongo;
                cred_host := None;
                cred_port := None;
                cred_user := None;
                cred_password := None;
                cred_database := None;
                cred_schema := Some "db";
                cred_uri := Some "mongodb://host/admin" |}).
Proof. split; vm_compute; reflexivity. Qed.

(** [parseInt(undefined, 10)] reads the string ["undefined"], which starts
    with no digit. *)
Lemma parseInt_undefined : Js.parseInt None = Js.NaN.
Proof. reflexivity. Qed.

(** With the whole Postgres group, no required MySQL flag and no
    [--pg-port], the port of the descriptor is [NaN]. *)
Lemma postgres_port_without_flag (new_URL : string -> option Js.URL)
    (args : gmap string ArgValue) :
  (forall key, key ∈ requiredPostgresFlags -> present args key) ->
  (forall key, key ∈ requiredMysqlFlags -> ~ present args key) ->
  ~ present args "--pg-port" ->
  exists credentials,
    getCredentialsByFlags new_URL args = Ok (Some credentials) /\
    cred_type credentials = postgres /\
    cred_port credentials = Some Js.NaN.
Proof.
  intros Hpg Hmy Hport. rewrite (postgres_descriptor new_URL args Hpg Hmy).
  eexists. split; [reflexivity|]. cbn. split; [reflexivity|].
  unfold flag. destruct (args !! "--pg-port") as [v|] eqn:E.
  - destruct Hport. now exists v.
  - reflexivity.
Qed.

(** When [--pg-port] is given, the port is its integer parse. *)
Lemma postgres_port_with_flag (new_URL : string -> option Js.URL)
    (args : gmap string ArgValue) (port : string) :
  (forall key, key ∈ requiredPostgresFlags -> present args key) ->
  (forall key, key ∈ requiredMysqlFlags -> ~ present args key) ->
  args !! "--pg-port" = Some (arg_string port) ->
  exists credentials,
    getCredentialsByFlags new_URL args = Ok (Some credentials) /\
    cred_port credentials = Some (Js.parseInt (Some port)).
Proof.
  intros Hpg Hmy Hport. rewrite (postgres_descriptor new_URL args Hpg Hmy).
  eexists. split; [reflexivity|]. cbn. unfold flag. now rewrite Hport.
Qed.

(** C2 on the code: [--pg-host=h --pg-user=u --pg-password=p --pg-db=d]
    and no [--pg-port] give a Postgres descriptor whose [port] is set, to
    [NaN]. *)
Theorem postgres_port_is_NaN_without_flag :
  getCredentialsByFlags Js.parse sample_postgres_args
  = Ok (Some {| cred_type := postgres;
                cred_host := Some "h";
                cred_port := Some Js.NaN;
                cred_user := Some "u";
                cred_password := Some "p";
                cred_database := Some "d";
                cred_schema := None;
                cred_uri := None |}).
Proof. vm_compute. reflexivity. Qed.

Example postgres_port_example :
  getCredentialsByFlags Js.parse
    (<["--pg-port" := arg_string "5433"]> sample_postgres_args)
  = Ok (Some {| cred_type := postgres;
                cred_host := Some "h";
                cred_port := Some (Js.Int 5433);
                cred_user := Some "u";
                cred_password := Some "p";
                cred_database := Some "d";
                cred_schema := None;
                cred_uri := None |}).
Proof. vm_compute. reflexivity. Qed.

(** * Further properties *)

(** *** helpers.ts: the discriminators, and where [down] and [up] go *)

(** X1.  An element answers to exactly one of the four discriminators. *)
Theorem discriminators_partition (e : Element) :
  (isElementInput e = true /\ isElementSelect e = false /\
   isElementCheckbox e = false /\ isElementSeparator e = false) \/
  (isElementInput e = false /\ isElementSelect e = true /\
   isElementCheckbox e = false /\ isElementSeparator e = false) \/
  (isElementInput e = false /\ isElementSelect e = false /\
   isElementCheckbox e = true /\ isElementSeparator e = false) \/
  (isElementInput e = false /\ isElementSelect e = false /\
   isElementCheckbox e = false /\ isElementSeparator e = true).
Proof.
  destruct e; [left | right; left | do 2 right; left | do 3 right];
    repeat split; reflexivity.
Qed.

Lemma down_loop_before_list (elements : list Element) (cursor : Z) :
  cursor < -1 -> down_loop elements cursor = Throw JsTypeError.
Proof.
  intros Hc. funelim (down_loop elements cursor); try lia; try reflexivity.
  all: unfold at_index in *; rewrite bool_decide_eq_false_2 in * by lia;
    discriminate.
Qed.

Lemma up_loop_past_list (elements : list Element) (cursor : Z) :
  Z.of_nat (length elements) < cursor -> up_loop elements cursor = Throw JsTypeError.
Proof.
  intros Hc. funelim (up_loop elements cursor); try lia; try reflexivity.
  all: unfold at_index in *; rewrite bool_decide_eq_true_2 in * by lia;
    match goal with
    | H : _ !! _ = Some _ |- _ => apply lookup_lt_Some in H; lia
    end.
Qed.

(** X2.  [down] throws (reading [.type] of [undefined]) exactly on a cursor
    below -1, and [up] exactly on a cursor above the length of the list;
    elsewhere [down] returns a cursor that is not smaller and [up] one
    that is not larger. *)
Theorem down_up_throw_off_the_list (elements : list Element) (cursor : Z) :
  (down cursor elements = Throw JsTypeError <-> cursor < -1) /\
  (up cursor elements = Throw JsTypeError
   <-> Z.of_nat (length elements) < cursor) /\
  (forall c, down cursor elements = Ok c -> cursor <= c) /\
  (forall c, up cursor elements = Ok c -> c <= cursor).
Proof.
  assert (cursor < -1 \/ -1 <= cursor) as [Hd|Hd] by lia;
    assert (Z.of_nat (length elements) < cursor
            \/ cursor <= Z.of_nat (length elements)) as [Hu|Hu] by lia;
    unfold down, up;
    try rewrite (down_loop_before_list elements cursor Hd);
    try rewrite (up_loop_past_list elements cursor Hu);
    try (destruct (down_loop_spec elements cursor Hd) as (d & -> & Hdle & _));
    try (destruct (up_loop_spec elements cursor Hu) as (u & -> & Hule & _));
    cbn [bind]; repeat split; intros; try discriminate; try lia;
    try reflexivity;
    match goal with
    | H : Ok _ = Ok _ |- _ => injection H as <-; case_bool_decide; lia
    end.
Qed.

Section Landing.

Variable elements : list Element.

Local Abbreviation last_index := (Z.of_nat (length elements) - 1).

(** Where there is a landing place before the cursor, [up] stops on the
    nearest one. *)
Lemma up_lands_on_previous (cursor i : Z) :
  0 <= cursor <= last_index ->
  0 <= i < cursor ->
  separator_at elements i = false ->
  exists c, up cursor elements = Ok c /\ i <= c < cursor /\
    separator_at elements c = false.
Proof.
  intros Hc Hi Hoff.
  destruct (up_spec elements cursor Hc) as (c & -> & Hin & Hskip & Hland).
  exists c. split; [reflexivity|].
  assert (i <= c) as Hle.
  { destruct (decide (i <= c)) as [|Hgt]; [assumption|].
    rewrite Hskip in Hoff by lia. discriminate. }
  destruct Hland as [[Hlt Hc']|[-> Hall]]; [split; [lia | exact Hc']|].
  rewrite Hall in Hoff by lia. discriminate.
Qed.

(** X3.  [down] returns the first index after the cursor whose element is
    no separator, when there is one. *)
Theorem down_lands_on_first (cursor i : Z) :
  0 <= cursor ->
  cursor < i <= last_index ->
  separator_at elements i = false ->
  (forall j, cursor < j < i -> separator_at elements j = true) ->
  down cursor elements = Ok i.
Proof.
  intros Hc Hi Hoff Hfirst.
  destruct (down_lands_on_next elements cursor i) as (c & -> & Hin & Hc');
    [lia | lia | exact Hoff |].
  f_equal. destruct (decide (c = i)) as [|Hne]; [assumption|].
  rewrite Hfirst in Hc' by lia. discriminate.
Qed.

(** X4.  [up] returns the last index before the cursor whose element is no
    separator, when there is one. *)
Theorem up_lands_on_last (cursor i : Z) :
  cursor <= last_index ->
  0 <= i < cursor ->
  separator_at elements i = false ->
  (forall j, i < j < cursor -> separator_at elements j = true) ->
  up cursor elements = Ok i.
Proof.
  intros Hc Hi Hoff Hlast.
  destruct (up_lands_on_previous cursor i) as (c & -> & Hin & Hc');
    [lia | lia | exact Hoff |].
  f_equal. destruct (decide (c = i)) as [|Hne]; [assumption|].
  rewrite Hlast in Hc' by lia. discriminate.
Qed.

(** X5.  A move that lands on an element is undone by the opposite move:
    from a cursor on no separator, when [down] ([up]) reaches another
    element that is no separator, [up] ([down]) from there returns the
    first cursor. *)
Theorem opposite_move_returns (cursor c : Z) :
  0 <= cursor <= last_index ->
  separator_at elements cursor = false ->
  c <> cursor ->
  separator_at elements c = false ->
  (down cursor elements = Ok c -> up c elements = Ok cursor) /\
  (up cursor elements = Ok c -> down c elements = Ok cursor).
Proof.
  intros Hc Hoff Hne Hoffc. split; intros Hmove.
  - destruct (down_spec elements cursor Hc) as (c' & Hd & Hin & Hskip & _).
    rewrite Hd in Hmove. injection Hmove as ->.
    apply up_lands_on_last; try lia; [exact Hoff|].
    intros j Hj. apply Hskip. lia.
  - destruct (up_spec elements cursor Hc) as (c' & Hu & Hin & Hskip & _).
    rewrite Hu in Hmove. injection Hmove as ->.
    apply down_lands_on_first; try lia; [exact Hoff|].
    intros j Hj. apply Hskip. lia.
Qed.

(** X6.  [down] gives back the cursor it was given only at the last index
    or past it, and [up] only at index 0 or before it; everywhere else on
    the list the cursor moves. *)
Theorem down_up_stay_only_at_the_ends (cursor : Z) :
  (-1 <= cursor -> down cursor elements = Ok cursor <-> last_index <= cursor) /\
  (cursor <= Z.of_nat (length elements) ->
   up cursor elements = Ok cursor <-> cursor <= 0).
Proof.
  split; intros Hc.
  - unfold down.
    destruct (down_loop_spec elements cursor Hc) as (d & -> & Hle & _ & _ & Hmax).
    cbn [bind]. case_bool_decide as Hb; split; intros Heq;
      try (injection Heq as Heq); try (f_equal; lia); lia.
  - unfold up.
    destruct (up_loop_spec elements cursor Hc) as (u & -> & Hle & _ & _ & Hmin).
    cbn [bind]. case_bool_decide as Hb; split; intros Heq;
      try (injection Heq as Heq); try (f_equal; lia); lia.
Qed.

End Landing.

Lemma down_lands_on_first_witness :
  down 0 [sample_select "a"; sample_separator; sample_separator; sample_select "b"]
  = Ok 3.
Proof.
  apply down_lands_on_first; try (simpl; lia); [reflexivity|].
  intros j Hj. assert (j = 1 \/ j = 2) as [->| ->] by lia; reflexivity.
Defined.

Lemma up_lands_on_last_witness :
  up 3 [sample_select "a"; sample_separator; sample_separator; sample_select "b"]
  = Ok 0.
Proof.
  apply up_lands_on_last; try (simpl; lia); [reflexivity|].
  intros j Hj. assert (j = 1 \/ j = 2) as [->| ->] by lia; reflexivity.
Defined.

Lemma opposite_move_returns_witness :
  (down 0 [sample_select "a"; sample_separator; sample_select "b"] = Ok 2 ->
   up 2 [sample_select "a"; sample_separator; sample_select "b"] = Ok 0) /\
  (up 0 [sample_select "a"; sample_separator; sample_select "b"] = Ok 2 ->
   down 2 [sample_select "a"; sample_separator; sample_select "b"] = Ok 0).
Proof.
  apply (opposite_move_returns
           [sample_select "a"; sample_separator; sample_select "b"] 0 2).
  - simpl. lia.
  - reflexivity.
  - lia.
  - reflexivity.
Defined.

Lemma down_up_stay_only_at_the_ends_witness :
  (down 1 [sample_select "a"; sample_select "b"] = Ok 1 <-> 2 - 1 <= 1) /\
  (up 1 [sample_select "a"; sample_select "b"] = Ok 1 <-> 1 <= 0).
Proof.
  split.
  - apply (proj1 (down_up_stay_only_at_the_ends
                    [sample_select "a"; sample_select "b"] 1)). lia.
  - apply (proj2 (down_up_stay_only_at_the_ends
                    [sample_select "a"; sample_select "b"] 1)). simpl. lia.
Defined.

(** *** BoxPrompt.tsx: the cursor under key presses, form values, spinners *)

Section PromptKeys.

Import BoxPrompt.

Variable props : Props.

(** A key press leaves the cursor where it is or moves it by [up] or
    [down]. *)
Lemma keyHandler_cases (st : State) (actionKey : string) (prevCursor : Z) :
  keyHandler props st actionKey prevCursor = Ok prevCursor \/
  keyHandler props st actionKey prevCursor
  = apply_move (elementsWithBack props) prevCursor move_up \/
  keyHandler props st actionKey prevCursor
  = apply_move (elementsWithBack props) prevCursor move_down.
Proof.
  unfold keyHandler. cbn [apply_move].
  repeat match goal with
         | |- context [if ?b then _ else _] => destruct b
         end; auto.
Qed.

Lemma press_keys_invariant (presses : list (State * string)) (cursor : Z) :
  0 <= cursor <= Z.of_nat (length (elementsWithBack props)) - 1 ->
  exists c, press_keys props cursor presses = Ok c /\
    0 <= c <= Z.of_nat (length (elementsWithBack props)) - 1 /\
    (separator_at (elementsWithBack props) 0 = false ->
     separator_at (elementsWithBack props)
       (Z.of_nat (length (elementsWithBack props)) - 1) = false ->
     separator_at (elementsWithBack props) cursor = false ->
     separator_at (elementsWithBack props) c = false).
Proof.
  revert cursor. induction presses as [|[st key] presses' IH]; intros cursor Hin.
  - exists cursor. cbn. auto.
  - assert (exists c1, keyHandler props st key cursor = Ok c1 /\
              0 <= c1 <= Z.of_nat (length (elementsWithBack props)) - 1 /\
              (separator_at (elementsWithBack props) 0 = false ->
               separator_at (elementsWithBack props)
                 (Z.of_nat (length (elementsWithBack props)) - 1) = false ->
               separator_at (elementsWithBack props) cursor = false ->
               separator_at (elementsWithBack props) c1 = false))
      as (c1 & Hkey & Hin1 & Hoff1).
    { destruct (keyHandler_cases st key cursor) as [Hk|[Hk|Hk]]; rewrite Hk.
      - exists cursor. auto.
      - destruct (apply_move_in_list (elementsWithBack props) cursor move_up Hin)
          as (c1 & ? & ? & ?). exists c1. auto.
      - destruct (apply_move_in_list (elementsWithBack props) cursor move_down Hin)
          as (c1 & ? & ? & ?). exists c1. auto. }
    destruct (IH c1 Hin1) as (c & Hrun & Hinc & Hoffc).
    exists c. cbn [press_keys]. rewrite Hkey. cbn [bind].
    split; [exact Hrun|]. split; [exact Hinc|]. auto.
Qed.

(** X7.  The prompt starts with the cursor on index 0.  Whatever keys are
    pressed, in whatever state of the form, the cursor stays on the list
    (the back button included) and no press throws; and when the first
    element is no separator and the list ends with the back button or
    with another element that is no separator, the cursor never rests on
    a separator. *)
Theorem key_presses_keep_cursor_on_elements (presses : list (State * string)) :
  elementsWithBack props <> [] ->
  exists c, press_keys props 0 presses = Ok c /\
    0 <= c <= Z.of_nat (length (elementsWithBack props)) - 1 /\
    (separator_at (elementsWithBack props) 0 = false ->
     withBackButton props = true \/
     separator_at (elementsWithBack props)
       (Z.of_nat (length (elementsWithBack props)) - 1) = false ->
     separator_at (elementsWithBack props) c = false).
Proof.
  intros Hne.
  assert (0 <= 0 <= Z.of_nat (length (elementsWithBack props)) - 1) as Hin.
  { destruct (elementsWithBack props); [congruence | cbn [length]; lia]. }
  destruct (press_keys_invariant presses 0 Hin) as (c & Hrun & Hinc & Hoff).
  exists c. split; [exact Hrun|]. split; [exact Hinc|].
  intros Hfirst Hlast. apply Hoff; [exact Hfirst | | exact Hfirst].
  destruct Hlast as [Hback|Hlast]; [|exact Hlast].
  now apply back_button_is_last.
Qed.

End PromptKeys.

Section PromptState.

Import BoxPrompt.

Variable props : Props.

Lemma step_formValues (st : State) (ev : Event) (identifier : string) :
  formValues (step props st ev).1 !! identifier
  = match last_change identifier [ev] with
    | Some v => Some v
    | None => formValues st !! identifier
    end.
Proof.
  destruct ev as [id v|i v| |i|i o|v]; cbn; try reflexivity.
  - case_bool_decide as Hid.
    + subst. apply lookup_insert_eq.
    + now apply lookup_insert_ne.
  - destruct (elements props !! i) as [[]|]; reflexivity.
  - destruct (withBackButton props); reflexivity.
Qed.

Lemma step_spinners (st : State) (ev : Event) (elemIndex : nat) :
  spinnersByCursor (step props st ev).1 !! elemIndex
  = match last_spinner elemIndex [ev] with
    | Some s => Some s
    | None => spinnersByCursor st !! elemIndex
    end.
Proof.
  destruct ev as [id v|i v| |i|i o|v]; cbn; try reflexivity.
  - destruct (elements props !! i) as [[]|]; reflexivity.
  - destruct (withBackButton props); reflexivity.
  - case_bool_decide as Hi.
    + subst. apply lookup_insert_eq.
    + now apply lookup_insert_ne.
  - case_bool_decide as Hi.
    + subst. apply lookup_insert_eq.
    + now apply lookup_insert_ne.
Qed.

(** The form value under an identifier after a run of events. *)
Lemma run_formValues (st : State) (evs : list Event) (identifier : string) :
  formValues (run props st evs).1 !! identifier
  = match last_change identifier evs with
    | Some v => Some v
    | None => formValues st !! identifier
    end.
Proof.
  revert st. induction evs as [|ev evs' IH]; intros st; [reflexivity|].
  rewrite run_cons. cbn [fst]. rewrite IH. cbn [last_change].
  destruct (last_change identifier evs'); [reflexivity|].
  apply step_formValues.
Qed.

(** The spinner of an element after a run of events. *)
Lemma run_spinners (st : State) (evs : list Event) (elemIndex : nat) :
  spinnersByCursor (run props st evs).1 !! elemIndex
  = match last_spinner elemIndex evs with
    | Some s => Some s
    | None => spinnersByCursor st !! elemIndex
    end.
Proof.
  revert st. induction evs as [|ev evs' IH]; intros st; [reflexivity|].
  rewrite run_cons. cbn [fst]. rewrite IH. cbn [last_spinner].
  destruct (last_spinner elemIndex evs'); [reflexivity|].
  apply step_spinners.
Qed.

(** X8.  After any run of events, the form holds under each identifier the
    value of the last change of that identifier, or what it held at the
    start when there was none: selections, the back button and the
    spinner calls write nothing into the form.  Likewise the spinner of an
    element is what the last [startSpinner] or [stopSpinner] of its index
    made it. *)
Theorem events_leave_last_writes (st : State) (evs : list Event) :
  (forall identifier,
      formValues (run props st evs).1 !! identifier
      = match last_change identifier evs with
        | Some v => Some v
        | None => formValues st !! identifier
        end) /\
  (forall elemIndex,
      spinnersByCursor (run props st evs).1 !! elemIndex
      = match last_spinner elemIndex evs with
        | Some s => Some s
        | None => spinnersByCursor st !! elemIndex
        end).
Proof.
  split; intros x.
  - revert st. induction evs as [|ev evs' IH]; intros st; [reflexivity|].
    rewrite run_cons. cbn [fst]. rewrite IH. cbn [last_change].
    destruct (last_change x evs'); [reflexivity | apply step_formValues].
  - revert st. induction evs as [|ev evs' IH]; intros st; [reflexivity|].
    rewrite run_cons. cbn [fst]. rewrite IH. cbn [last_spinner].
    destruct (last_spinner x evs'); [reflexivity | apply step_spinners].
Qed.

(** X9.  Once the spinner of an element has been stopped, and not started
    again, selecting the element calls its callback again, with the value
    selected and nothing submitted. *)
Theorem stopped_select_is_invoked_again (st : State) (e : SelectElement)
    (callback : Callback) (elemIndex : nat) (evs : list Event)
    (state : SpinnerOutcome) (value : option string) :
  elements props !! elemIndex = Some (select e) ->
  select_onSelect e = Some callback ->
  last_spinner elemIndex evs = Some (of_outcome state) ->
  (step props (run props st evs).1 (item_selected elemIndex value)).2
  = [call_onSelect callback elemIndex value].
Proof.
  intros He Hcb Hlast. cbn [step]. rewrite He. cbn [snd]. f_equal.
  apply onSelect_idle; [exact Hcb|].
  rewrite run_spinners, Hlast. destruct state; discriminate.
Qed.

(** What the back button submits after a run of events: the form as the
    events left it. *)
Lemma back_after_run (st : State) (evs : list Event) :
  withBackButton props = true ->
  (step props (run props st evs).1 back_selected).2
  = [call_onSubmit (formValues (run props st evs).1) None true].
Proof. intros Hback. cbn [step]. now rewrite Hback. Qed.

End PromptState.

Lemma stopped_select_is_invoked_again_witness :
  (BoxPrompt.step sample_props
     (BoxPrompt.run sample_props sample_running
        [BoxPrompt.item_selected 1 (Some "test");
         BoxPrompt.stopSpinner_called 1 outcome_failed]).1
     (BoxPrompt.item_selected 1 (Some "test"))).2
  = [BoxPrompt.call_onSelect "test" 1 (Some "test")].
Proof.
  apply (stopped_select_is_invoked_again sample_props sample_running sample_test
           "test" 1 _ outcome_failed); reflexivity.
Defined.

(** *** Checkbox.tsx *)

Section Checkboxes.

Import BoxPrompt.

Variable st : State.
Variable cursor : Z.

Lemma checkbox_changes_after (action : string) (elemIndex : nat)
    (els : list Element) :
  cursor < Z.of_nat elemIndex ->
  checkbox_changes st cursor action elemIndex els = [].
Proof.
  revert elemIndex. induction els as [|e els' IH]; intros k Hk; [reflexivity|].
  cbn [checkbox_changes]. rewrite IH by lia.
  destruct e; try reflexivity.
  unfold Checkbox_onKey. now rewrite bool_decide_eq_false_2 by lia.
Qed.

Lemma checkbox_changes_other_key (action : string) (elemIndex : nat)
    (els : list Element) :
  action <> "submit" ->
  checkbox_changes st cursor action elemIndex els = [].
Proof.
  intros Hne. revert elemIndex.
  induction els as [|e els' IH]; intros k; [reflexivity|].
  cbn [checkbox_changes]. rewrite IH. destruct e; try reflexivity.
  unfold Checkbox_onKey. rewrite (bool_decide_eq_false_2 _ Hne).
  now rewrite andb_false_r.
Qed.

Lemma checkbox_changes_unfocused (action : string) (elemIndex : nat)
    (els : list Element) :
  (forall i c, els !! i = Some (checkbox c) -> cursor <> Z.of_nat (elemIndex + i)) ->
  checkbox_changes st cursor action elemIndex els = [].
Proof.
  revert elemIndex. induction els as [|e els' IH]; intros k Hk; [reflexivity|].
  cbn [checkbox_changes]. rewrite IH.
  - destruct e as [| |c|]; try reflexivity.
    unfold Checkbox_onKey. rewrite bool_decide_eq_false_2; [reflexivity|].
    specialize (Hk 0%nat c eq_refl). now rewrite Nat.add_0_r in Hk.
  - intros i c Hi. specialize (Hk (S i) c Hi).
    now replace (S k + i)%nat with (k + S i)%nat by lia.
Qed.

Lemma checkbox_changes_focused (elemIndex i : nat) (els : list Element)
    (c : CheckboxElement) :
  els !! i = Some (checkbox c) ->
  cursor = Z.of_nat (elemIndex + i) ->
  checkbox_changes st cursor "submit" elemIndex els
  = [(checkbox_identifier c,
      negb (truthy (formValues st !! checkbox_identifier c)))].
Proof.
  revert elemIndex i. induction els as [|e els' IH]; intros k i Hi Hc;
    [discriminate|].
  cbn [checkbox_changes]. destruct i as [|i'].
  - injection Hi as ->. rewrite checkbox_changes_after by lia.
    unfold Checkbox_onKey. rewrite bool_decide_eq_true_2 by lia. reflexivity.
  - rewrite (IH (S k) i') by (try exact Hi; lia).
    destruct e as [| |c'|]; try reflexivity.
    unfold Checkbox_onKey. now rewrite bool_decide_eq_false_2 by lia.
Qed.

End Checkboxes.

Section Toggle.

Import BoxPrompt.

Variable props : Props.

(** X10.  The submit key on the checkbox under the cursor flips its value
    in the form and touches no other identifier; pressed twice it brings
    the checkbox back to what it showed.  Any other key, or a cursor that
    is on no checkbox, changes nothing in the form. *)
Theorem checkbox_submit_toggles (st : State) (i : nat) (c : CheckboxElement) :
  elements props !! i = Some (checkbox c) ->
  let press := press_checkboxes props (Z.of_nat i) "submit" in
  truthy (formValues (press st) !! checkbox_identifier c)
  = negb (truthy (formValues st !! checkbox_identifier c)) /\
  truthy (formValues (press (press st)) !! checkbox_identifier c)
  = truthy (formValues st !! checkbox_identifier c) /\
  (forall identifier, identifier <> checkbox_identifier c ->
     formValues (press st) !! identifier = formValues st !! identifier) /\
  (forall action, action <> "submit" ->
     press_checkboxes props (Z.of_nat i) action st = st) /\
  (forall cursor action,
     (forall j c', elements props !! j = Some (checkbox c') -> cursor <> Z.of_nat j) ->
     press_checkboxes props cursor action st = st).
Proof.
  intros He press.
  assert (forall st', press st'
            = onInputChange st'
                (form_boolean (negb (truthy (formValues st' !! checkbox_identifier c))))
                (checkbox_identifier c)) as Hpress.
  { intros st'. unfold press, press_checkboxes.
    now rewrite (checkbox_changes_focused st' (Z.of_nat i) 0 i _ c He). }
  repeat split.
  - rewrite Hpress. cbn. now rewrite lookup_insert_eq.
  - rewrite !Hpress. cbn. rewrite !lookup_insert_eq. cbn. apply negb_involutive.
  - intros identifier Hne. rewrite Hpress. cbn. now rewrite lookup_insert_ne.
  - intros action Hne. unfold press_checkboxes.
    now rewrite checkbox_changes_other_key.
  - intros cursor action Hno. unfold press_checkboxes.
    now rewrite checkbox_changes_unfocused.
Qed.

End Toggle.

Lemma checkbox_submit_toggles_witness :
  let props := Wizard.props {| Wizard.step := Wizard.CONNECT; Wizard.credentials := ∅ |} in
  let st := BoxPrompt.initialState props in
  let c := {| checkbox_label := "Enable SSL ?";
              checkbox_identifier := "ssl";
              checkbox_style := Some [("marginBottom", 1)] |} in
  let press := press_checkboxes props (Z.of_nat 5) "submit" in
  BoxPrompt.truthy (BoxPrompt.formValues (press st) !! checkbox_identifier c)
  = negb (BoxPrompt.truthy (BoxPrompt.formValues st !! checkbox_identifier c)) /\
  BoxPrompt.truthy (BoxPrompt.formValues (press (press st)) !! checkbox_identifier c)
  = BoxPrompt.truthy (BoxPrompt.formValues st !! checkbox_identifier c) /\
  (forall identifier, identifier <> checkbox_identifier c ->
     BoxPrompt.formValues (press st) !! identifier
     = BoxPrompt.formValues st !! identifier) /\
  (forall action, action <> "submit" ->
     press_checkboxes props (Z.of_nat 5) action st = st) /\
  (forall cursor action,
     (forall j c', BoxPrompt.elements props !! j = Some (checkbox c') ->
                   cursor <> Z.of_nat j) ->
     press_checkboxes props cursor action st = st).
Proof.
  intros props st c.
  apply (checkbox_submit_toggles props st 5 c). reflexivity.
Defined.

Lemma key_presses_keep_cursor_on_elements_witness :
  exists c,
    press_keys sample_props 0
      [(sample_running, "down"); (sample_running, "submit"); (sample_running, "up")]
    = Ok c /\
    0 <= c <= Z.of_nat (length (BoxPrompt.elementsWithBack sample_props)) - 1 /\
    (separator_at (BoxPrompt.elementsWithBack sample_props) 0 = false ->
     BoxPrompt.withBackButton sample_props = true \/
     separator_at (BoxPrompt.elementsWithBack sample_props)
       (Z.of_nat (length (BoxPrompt.elementsWithBack sample_props)) - 1) = false ->
     separator_at (BoxPrompt.elementsWithBack sample_props) c = false).
Proof.
  apply (key_presses_keep_cursor_on_elements sample_props). discriminate.
Defined.

(** *** index.tsx: the two steps *)

Section Steps.

Import BoxPrompt.

(** The form of a prompt holds every key it was mounted with. *)
Lemma form_absorbs_initial (props : Props) (evs : list Event)
    (initial : gmap string FormValue) :
  initialFormValues props = Some initial ->
  formValues (run props (initialState props) evs).1 ∪ initial
  = formValues (run props (initialState props) evs).1.
Proof.
  intros Hinit. apply map_eq. intros k.
  rewrite lookup_union, run_formValues.
  unfold initialState. rewrite Hinit. cbn.
  destruct (last_change k evs); destruct (initial !! k); reflexivity.
Qed.

(** X11.  Going back keeps what was typed.  In the connect step, after any
    events on the form, the back button submits the form as it stands; the
    component returns to the choice of the database with the form as its
    credentials; and when a database is chosen anew, the connect step
    opens with every value of the form but [type], which is the new
    choice. *)
Theorem back_keeps_the_form (w : Wizard.Introspection) (evs : list Event)
    (chosen : string) (formValues' : gmap string FormValue) :
  Wizard.step w = Wizard.CONNECT ->
  let st := (run (Wizard.props w) (initialState (Wizard.props w)) evs).1 in
  let w' := (Wizard.onSubmit w (formValues st) None true).1 in
  let w'' := (Wizard.onSubmit w' formValues' (Some chosen) false).1 in
  (step (Wizard.props w) st back_selected).2
  = [call_onSubmit (formValues st) None true] /\
  w' = {| Wizard.step := Wizard.CHOOSE_DB; Wizard.credentials := formValues st |} /\
  Wizard.step w'' = Wizard.CONNECT /\
  formValues (initialState (Wizard.props w'')) !! "type"
  = Some (form_string chosen) /\
  (forall identifier, identifier <> "type" ->
     formValues (initialState (Wizard.props w'')) !! identifier
     = match last_change identifier evs with
       | Some v => Some v
       | None => Wizard.credentials w !! identifier
       end).
Proof.
  intros Hstep st w' w''.
  assert (initialFormValues (Wizard.props w) = Some (Wizard.credentials w)) as Hinit
    by (unfold Wizard.props; now rewrite Hstep).
  assert (w' = {| Wizard.step := Wizard.CHOOSE_DB;
                  Wizard.credentials := formValues st |}) as Hw'.
  { unfold w', Wizard.onSubmit. rewrite Hstep. cbn [fst]. f_equal.
    apply (form_absorbs_initial _ evs _ Hinit). }
  split; [|split; [exact Hw'|]].
  - apply back_after_run. unfold Wizard.props. now rewrite Hstep.
  - unfold w''. rewrite Hw'. cbn. repeat split.
    + apply lookup_insert_eq.
    + intros identifier Hne. rewrite lookup_insert_ne by congruence.
      unfold st. rewrite run_formValues. unfold initialState. now rewrite Hinit.
Qed.

(** X12.  In both steps of the component, whatever keys are pressed, the
    cursor stays on the elements of the step and never rests on the
    separator. *)
Theorem steps_keep_cursor_off_the_separator (w : Wizard.Introspection)
    (presses : list (State * string)) :
  exists c, press_keys (Wizard.props w) 0 presses = Ok c /\
    0 <= c <= Z.of_nat (length (elementsWithBack (Wizard.props w))) - 1 /\
    separator_at (elementsWithBack (Wizard.props w)) c = false.
Proof.
  destruct (press_keys_invariant (Wizard.props w) presses 0)
    as (c & Hrun & Hin & Hoff).
  { unfold Wizard.props. destruct (Wizard.step w); cbn; lia. }
  exists c. split; [exact Hrun|]. split; [exact Hin|].
  apply Hoff; unfold Wizard.props; destruct (Wizard.step w); reflexivity.
Qed.

End Steps.

Lemma back_keeps_the_form_witness :
  let w := {| Wizard.step := Wizard.CONNECT;
              Wizard.credentials := {[ "type" := BoxPrompt.form_string "postgres" ]} |} in
  let evs := [BoxPrompt.input_changed "host" (BoxPrompt.form_string "db.local");
              BoxPrompt.item_selected 7 (Some "test")] in
  let st := (BoxPrompt.run (Wizard.props w)
               (BoxPrompt.initialState (Wizard.props w)) evs).1 in
  let w' := (Wizard.onSubmit w (BoxPrompt.formValues st) None true).1 in
  let w'' := (Wizard.onSubmit w' ∅ (Some "mysql") false).1 in
  (BoxPrompt.step (Wizard.props w) st BoxPrompt.back_selected).2
  = [BoxPrompt.call_onSubmit (BoxPrompt.formValues st) None true] /\
  w' = {| Wizard.step := Wizard.CHOOSE_DB;
          Wizard.credentials := BoxPrompt.formValues st |} /\
  Wizard.step w'' = Wizard.CONNECT /\
  BoxPrompt.formValues (BoxPrompt.initialState (Wizard.props w'')) !! "type"
  = Some (BoxPrompt.form_string "mysql") /\
  (forall identifier, identifier <> "type" ->
     BoxPrompt.formValues (BoxPrompt.initialState (Wizard.props w'')) !! identifier
     = match last_change identifier evs with
       | Some v => Some v
       | None => Wizard.credentials w !! identifier
       end).
Proof.
  intros w evs.
  apply (back_keeps_the_form w evs "mysql" ∅). reflexivity.
Defined.

(** *** index.ts: what the resolver returns, and from which flags *)

Section ResolverOutcomes.

Variable new_URL : string -> option Js.URL.
Variable args : gmap string ArgValue.

(** With the whole MySQL group and no required Postgres flag, the resolver
    returns the MySQL descriptor. *)
Lemma mysql_descriptor :
  (forall key, key ∈ requiredMysqlFlags -> present args key) ->
  (forall key, key ∈ requiredPostgresFlags -> ~ present args key) ->
  getCredentialsByFlags new_URL args
  = Ok (Some {| cred_type := mysql;
                cred_host := flag args "--mysql-host";
                cred_port := Some (Js.parseInt (flag args "--mysql-port"));
                cred_user := flag args "--mysql-user";
                cred_password := flag args "--mysql-password";
                cred_database := None;
                cred_schema := flag args "--mysql-db";
                cred_uri := None |}).
Proof.
  intros Hmy Hpg. apply count_full in Hmy. apply count_zero in Hpg.
  change (length requiredMysqlFlags) with 3%nat in Hmy.
  resolver_counts. decide_counts. reflexivity.
Qed.

(** X13.  With the three required MySQL flags and no required Postgres
    flag, the resolver returns a MySQL descriptor: host, user and password
    are the flags, the schema is [--mysql-db] (unset when the flag is),
    no [database] is set, and the port is [parseInt] of [--mysql-port],
    which is [NaN] when the flag is absent. *)
Theorem mysql_flags_give_mysql_descriptor :
  (forall key, key ∈ requiredMysqlFlags -> present args key) ->
  (forall key, key ∈ requiredPostgresFlags -> ~ present args key) ->
  exists credentials,
    getCredentialsByFlags new_URL args = Ok (Some credentials) /\
    cred_type credentials = mysql /\
    cred_host credentials = flag args "--mysql-host" /\
    cred_user credentials = flag args "--mysql-user" /\
    cred_password credentials = flag args "--mysql-password" /\
    cred_schema credentials = flag args "--mysql-db" /\
    cred_database credentials = None /\
    cred_uri credentials = None /\
    cred_port credentials = Some (Js.parseInt (flag args "--mysql-port")) /\
    (~ present args "--mysql-port" -> cred_port credentials = Some Js.NaN).
Proof.
  intros Hmy Hpg. rewrite (mysql_descriptor Hmy Hpg).
  eexists. split; [reflexivity|]. cbn. repeat split.
  intros Hport. unfold flag. destruct (args !! "--mysql-port") as [v|] eqn:E.
  - destruct Hport. now exists v.
  - reflexivity.
Qed.

(** X14.  The resolver returns a descriptor of a family exactly when the
    required group of the family is in the bag in full and no required
    flag of the other family is: a partial group never gives a
    descriptor. *)
Theorem descriptor_needs_the_whole_group :
  ((exists credentials,
       getCredentialsByFlags new_URL args = Ok (Some credentials) /\
       cred_type credentials = postgres) <->
   (forall key, key ∈ requiredPostgresFlags -> present args key) /\
   (forall key, key ∈ requiredMysqlFlags -> ~ present args key)) /\
  ((exists credentials,
       getCredentialsByFlags new_URL args = Ok (Some credentials) /\
       cred_type credentials = mysql) <->
   (forall key, key ∈ requiredMysqlFlags -> present args key) /\
   (forall key, key ∈ requiredPostgresFlags -> ~ present args key)).
Proof.
  split; (split; [|intros [H1 H2]]).
  - intros (c & Hres & Hty).
    rewrite count_full, count_zero.
    change (length requiredPostgresFlags) with 4%nat.
    revert Hres. resolver_counts.
    set (pg := length (filter (present args) requiredPostgresFlags)).
    set (my := length (filter (present args) requiredMysqlFlags)).
    destruct (decide (0 < my)%nat); destruct (decide (0 < pg)%nat);
      destruct (decide (my < 3)%nat); destruct (decide (pg < 4)%nat);
      decide_counts; try discriminate; try lia;
      try (intros [= <-]; discriminate).
    all: destruct (Js.truthy _); [|discriminate].
    all: destruct (populateMongoDatabase _ _ _); [|discriminate]; cbn [bind].
    all: destruct (sanitizeMongoUri _ _); [|discriminate]; cbn [bind].
    all: intros [= <-]; discriminate.
  - rewrite (postgres_descriptor new_URL args H1 H2). eexists. split; reflexivity.
  - intros (c & Hres & Hty).
    rewrite count_full, count_zero.
    change (length requiredMysqlFlags) with 3%nat.
    revert Hres. resolver_counts.
    set (pg := length (filter (present args) requiredPostgresFlags)).
    set (my := length (filter (present args) requiredMysqlFlags)).
    destruct (decide (0 < my)%nat); destruct (decide (0 < pg)%nat);
      destruct (decide (my < 3)%nat); destruct (decide (pg < 4)%nat);
      decide_counts; try discriminate; try lia;
      try (intros [= <-]; discriminate).
    all: destruct (Js.truthy _); [|discriminate].
    all: destruct (populateMongoDatabase _ _ _); [|discriminate]; cbn [bind].
    all: destruct (sanitizeMongoUri _ _); [|discriminate]; cbn [bind].
    all: intros [= <-]; discriminate.
  - rewrite (mysql_descriptor H1 H2). eexists. split; reflexivity.
Qed.

(** X15.  The resolver returns [null], and the caller turns to the
    interactive prompt, exactly when no required flag of either family is
    in the bag and [--mongo-uri] is absent or empty. *)
Theorem null_without_connection_flags :
  getCredentialsByFlags new_URL args = Ok None <->
  (forall key, key ∈ requiredPostgresFlags -> ~ present args key) /\
  (forall key, key ∈ requiredMysqlFlags -> ~ present args key) /\
  Js.truthy (flag args "--mongo-uri") = false.
Proof.
  rewrite !count_zero. resolver_counts.
  set (pg := length (filter (present args) requiredPostgresFlags)).
  set (my := length (filter (present args) requiredMysqlFlags)).
  destruct (decide (0 < my)%nat); destruct (decide (0 < pg)%nat);
    destruct (decide (my < 3)%nat); destruct (decide (pg < 4)%nat);
    decide_counts; try (split; [discriminate | lia]); try lia.
  destruct (Js.truthy (flag args "--mongo-uri")).
  - split; [|intros (_ & _ & ?); discriminate].
    destruct (populateMongoDatabase _ _ _); [|discriminate]; cbn [bind].
    destruct (sanitizeMongoUri _ _); discriminate.
  - split; [intros _; repeat split; lia | reflexivity].
Qed.

End ResolverOutcomes.

Section OtherFlags.

Variable new_URL : string -> option Js.URL.
Variable args : gmap string ArgValue.
Variable key : string.
Variable value : ArgValue.

Hypothesis key_not_read : key ∉ readFlags.

Lemma present_insert_other (k : string) :
  k ∈ readFlags -> present (<[key := value]> args) k <-> present args k.
Proof.
  intros Hk. unfold present. rewrite lookup_insert_ne; [reflexivity|].
  intros ->. now apply key_not_read.
Qed.

Lemma flag_insert_other (k : string) :
  k ∈ readFlags -> flag (<[key := value]> args) k = flag args k.
Proof.
  intros Hk. unfold flag. rewrite lookup_insert_ne; [reflexivity|].
  intros ->. now apply key_not_read.
Qed.

Lemma filter_present_insert_other (group : list string) :
  group ⊆ readFlags ->
  filter (present (<[key := value]> args)) group = filter (present args) group.
Proof.
  intros Hsub. apply filter_ext_elem. intros k Hk.
  apply present_insert_other. now apply Hsub.
Qed.

Lemma missing_insert_other (group : list string) :
  group ⊆ readFlags ->
  missing (<[key := value]> args) group = missing args group.
Proof.
  intros Hsub. apply filter_ext_elem. intros k Hk.
  rewrite present_insert_other; [reflexivity | now apply Hsub].
Qed.

(** X16.  A flag that is none of the thirteen the resolver reads changes
    nothing: with or without it (whatever its value) the resolver returns
    the same descriptor, the same [null] or the same error.  So it is with
    [--pg-ssl], [--sdl], [--interactive] and the positional arguments. *)
Theorem unread_flag_changes_nothing :
  getCredentialsByFlags new_URL (<[key := value]> args)
  = getCredentialsByFlags new_URL args.
Proof.
  assert (requiredPostgresFlags ⊆ readFlags) as Hpg
    by (intros k Hk; unfold readFlags; apply elem_of_app; now left).
  assert (requiredMysqlFlags ⊆ readFlags) as Hmy
    by (intros k Hk; unfold readFlags; apply elem_of_app; right;
        apply elem_of_app; now left).
  resolver_counts.
  rewrite !(filter_present_insert_other _ Hpg),
    !(filter_present_insert_other _ Hmy),
    !(missing_insert_other _ Hpg), !(missing_insert_other _ Hmy).
  rewrite !flag_insert_other by (apply (bool_decide_unpack _); reflexivity).
  reflexivity.
Qed.

End OtherFlags.

Lemma unread_flag_changes_nothing_witness :
  getCredentialsByFlags Js.parse (<["--pg-ssl" := arg_boolean true]> sample_postgres_args)
  = getCredentialsByFlags Js.parse sample_postgres_args.
Proof.
  apply unread_flag_changes_nothing.
  apply (bool_decide_unpack _). vm_compute. exact I.
Defined.

Lemma mysql_flags_give_mysql_descriptor_witness :
  exists credentials,
    getCredentialsByFlags Js.parse sample_mysql_args = Ok (Some credentials) /\
    cred_type credentials = mysql /\
    cred_host credentials = flag sample_mysql_args "--mysql-host" /\
    cred_user credentials = flag sample_mysql_args "--mysql-user" /\
    cred_password credentials = flag sample_mysql_args "--mysql-password" /\
    cred_schema credentials = flag sample_mysql_args "--mysql-db" /\
    cred_database credentials = None /\
    cred_uri credentials = None /\
    cred_port credentials = Some (Js.parseInt (flag sample_mysql_args "--mysql-port")) /\
    (~ present sample_mysql_args "--mysql-port" -> cred_port credentials = Some Js.NaN).
Proof.
  apply (mysql_flags_give_mysql_descriptor Js.parse sample_mysql_args).
  - intros key H. each_key H.
  - intros key H. each_key H.
Defined.

Lemma descriptor_needs_the_whole_group_witness :
  exists credentials,
    getCredentialsByFlags Js.parse sample_mysql_args = Ok (Some credentials) /\
    cred_type credentials = mysql.
Proof.
  apply (proj2 (proj2 (descriptor_needs_the_whole_group Js.parse sample_mysql_args))).
  split; intros key H; each_key H.
Defined.

Lemma null_without_connection_flags_witness :
  getCredentialsByFlags Js.parse
    (<["--sdl" := arg_boolean true]> (<["_" := arg_positional []]> ∅)) = Ok None.
Proof.
  apply (proj2 (null_without_connection_flags Js.parse _)).
  split; [|split]; [intros key H; each_key H | intros key H; each_key H |].
  vm_compute. reflexivity.
Defined.

Section MongoFlags.

Variable new_URL : string -> option Js.URL.
Variable args : gmap string ArgValue.

(** Without a required flag of either family and with a non-empty
    [--mongo-uri], the resolver is its Mongo branch. *)
Lemma mongo_branch (uri : string) :
  (forall key, key ∈ requiredPostgresFlags -> ~ present args key) ->
  (forall key, key ∈ requiredMysqlFlags -> ~ present args key) ->
  flag args "--mongo-uri" = Some uri ->
  uri <> "" ->
  getCredentialsByFlags new_URL args
  = (credentials <-! populateMongoDatabase new_URL uri (flag args "--mongo-db") ;;
     uri <-! sanitizeMongoUri new_URL (mongo_uri credentials) ;;
     Ok (Some {| cred_type := mongo;
                 cred_host := None;
                 cred_port := None;
                 cred_user := None;
                 cred_password := None;
                 cred_database := None;
                 cred_schema := Some (mongo_database credentials);
                 cred_uri := Some uri |})).
Proof.
  intros Hpg Hmy Huri Hne.
  apply count_zero in Hpg. apply count_zero in Hmy.
  assert (Js.truthy (Some uri) = true) as Htruthy
    by (unfold Js.truthy; now rewrite bool_decide_eq_false_2).
  resolver_counts. decide_counts. rewrite Huri, Htruthy. reflexivity.
Qed.

(** X17.  The Mongo flags, when no required flag of another family is in
    the bag.  A URI whose path is empty or ["/"] and no [--mongo-db] (or an
    empty one) is an error: the database is not taken to be [admin].  With
    a [--mongo-db] the descriptor has it as schema and the URI with path
    ["/admin"]; with a path ["/name"] and no [--mongo-db] the schema is
    [name] and the URI is the platform's serialisation of the flag. *)
Theorem mongo_flags_outcomes (uri : string) (url : Js.URL) :
  (forall key, key ∈ requiredPostgresFlags -> ~ present args key) ->
  (forall key, key ∈ requiredMysqlFlags -> ~ present args key) ->
  flag args "--mongo-uri" = Some uri ->
  uri <> "" ->
  new_URL uri = Some url ->
  (Js.pathname url = "/" \/ Js.pathname url = "" ->
   Js.truthy (flag args "--mongo-db") = false ->
   getCredentialsByFlags new_URL args = Throw MissingDatabaseError) /\
  (forall database,
     Js.pathname url = "/" \/ Js.pathname url = "" ->
     Js.opaque url = false ->
     flag args "--mongo-db" = Some database -> database <> "" ->
     exists sanitized,
       getCredentialsByFlags new_URL args
       = Ok (Some {| cred_type := mongo;
                     cred_host := None;
                     cred_port := None;
                     cred_user := None;
                     cred_password := None;
                     cred_database := None;
                     cred_schema := Some database;
                     cred_uri := Some (Js.toString sanitized) |}) /\
       Js.pathname sanitized = "/admin" /\
       Js.scheme sanitized = Js.scheme url /\
       Js.authority sanitized = Js.authority url /\
       Js.query sanitized = Js.query url /\
       Js.fragment sanitized = Js.fragment url) /\
  (forall name,
     Js.pathname url = "/" +:+ name -> name <> "" ->
     Js.truthy (flag args "--mongo-db") = false ->
     getCredentialsByFlags new_URL args
     = Ok (Some {| cred_type := mongo;
                   cred_host := None;
                   cred_port := None;
                   cred_user := None;
                   cred_password := None;
                   cred_database := None;
                   cred_schema := Some name;
                   cred_uri := Some (Js.toString url) |})).
Proof.
  intros Hpg Hmy Huri Hne Hurl.
  rewrite (mongo_branch uri Hpg Hmy Huri Hne).
  unfold populateMongoDatabase, sanitizeMongoUri, construct_URL.
  rewrite Hurl. cbn [defined bind]. repeat split.
  - intros Hroot Hdb. apply root_test in Hroot. now rewrite Hroot, Hdb.
  - intros database Hroot Hop Hdb Hd. apply root_test in Hroot.
    assert (Js.truthy (Some database) = true) as Ht
      by (unfold Js.truthy; now rewrite bool_decide_eq_false_2).
    rewrite Hdb, Ht, Hroot. cbn [negb andb mongo_uri mongo_database bind].
    rewrite Hurl. cbn [defined bind]. rewrite Hroot.
    exists (Js.set_pathname "admin" url). split; [reflexivity|].
    unfold Js.set_pathname. rewrite Hop. cbn. repeat split.
  - intros name Hpath Hname Hdb.
    assert (bool_decide (Js.pathname url = "/")
            || bool_decide (String.length (Js.pathname url) = 0%nat) = false)
      as Hroot.
    { apply root_test_false; rewrite Hpath; [|discriminate].
      intros [= H]. now apply Hname. }
    rewrite Hroot, Hdb. cbn [negb andb mongo_uri mongo_database bind].
    rewrite Hurl. cbn [defined bind]. rewrite Hroot, Hpath. reflexivity.
Qed.

(** X18.  From the flags to the connection: the command hands over to the
    interactive prompt exactly when the resolver returns [null]; an error
    of the resolver is thrown on; and it connects only with credentials
    that carry a non-empty schema.  With the Postgres flags in full the
    schema is [--pg-schema], not [--pg-db], and with the MySQL flags in
    full it is [--mysql-db]: when that flag is absent or empty the command
    prints "Please provide a database name" and exits with code 1. *)
Theorem connection_needs_a_schema :
  (getConnectorWithDatabase_start new_URL args = Ok promptIntrospectionInteractively
   <-> getCredentialsByFlags new_URL args = Ok None) /\
  (forall e, getCredentialsByFlags new_URL args = Throw e ->
             getConnectorWithDatabase_start new_URL args = Throw e) /\
  (forall credentialsByFlag,
     getConnectorWithDatabase_start new_URL args
     = Ok (getConnectedConnectorFromCredentials credentialsByFlag) ->
     getCredentialsByFlags new_URL args = Ok (Some credentialsByFlag) /\
     exists schema, cred_schema credentialsByFlag = Some schema /\ schema <> "") /\
  ((forall key, key ∈ requiredPostgresFlags -> present args key) ->
   (forall key, key ∈ requiredMysqlFlags -> ~ present args key) ->
   Js.truthy (flag args "--pg-schema") = false ->
   getConnectorWithDatabase_start new_URL args
   = Ok (exit "Please provide a database name" 1)) /\
  ((forall key, key ∈ requiredMysqlFlags -> present args key) ->
   (forall key, key ∈ requiredPostgresFlags -> ~ present args key) ->
   Js.truthy (flag args "--mysql-db") = false ->
   getConnectorWithDatabase_start new_URL args
   = Ok (exit "Please provide a database name" 1)).
Proof.
  unfold getConnectorWithDatabase_start. repeat split.
  - destruct (getCredentialsByFlags new_URL args) as [[c|]|e]; cbn [bind];
      [destruct (negb _)| |]; intros H; (discriminate || reflexivity).
  - intros ->. reflexivity.
  - intros e ->. reflexivity.
  - destruct (getCredentialsByFlags new_URL args) as [[c|]|e]; cbn [bind] in *;
      try discriminate.
    destruct (Js.truthy (cred_schema c)); cbn [negb] in *; congruence.
  - destruct (getCredentialsByFlags new_URL args) as [[c|]|e]; cbn [bind] in *;
      try discriminate.
    destruct (Js.truthy (cred_schema c)) eqn:Ht; cbn [negb] in *; [|discriminate].
    match goal with H : Ok _ = Ok _ |- _ => injection H as <- end.
    now apply truthy_true in Ht.
  - intros Hpg Hmy Hschema. rewrite (postgres_descriptor new_URL args Hpg Hmy).
    cbn [bind cred_schema]. now rewrite Hschema.
  - intros Hmy Hpg Hschema. rewrite (mysql_descriptor new_URL args Hmy Hpg).
    cbn [bind cred_schema]. now rewrite Hschema.
Qed.

End MongoFlags.

Lemma mongo_flags_outcomes_witness :
  exists sanitized,
    getCredentialsByFlags Js.parse sample_mongo_args
    = Ok (Some {| cred_type := mongo;
                  cred_host := None;
                  cred_port := None;
                  cred_user := None;
                  cred_password := None;
                  cred_database := None;
                  cred_schema := Some "shop";
                  cred_uri := Some (Js.toString sanitized) |}) /\
    Js.pathname sanitized = "/admin" /\
    Js.scheme sanitized = "mongodb" /\
    Js.authority sanitized = Some "host" /\
    Js.query sanitized = None /\
    Js.fragment sanitized = None.
Proof.
  assert (forall key, key ∈ requiredPostgresFlags -> ~ present sample_mongo_args key)
    as Hpg by (intros key H; each_key H).
  assert (forall key, key ∈ requiredMysqlFlags -> ~ present sample_mongo_args key)
    as Hmy by (intros key H; each_key H).
  assert (flag sample_mongo_args "--mongo-uri" = Some "mongodb://host/") as Huri
    by (vm_compute; reflexivity).
  assert ("mongodb://host/" <> "") as Hne by discriminate.
  apply (proj1 (proj2 (mongo_flags_outcomes Js.parse sample_mongo_args
                         "mongodb://host/"
                         {| Js.scheme := "mongodb";
                            Js.authority := Some "host";
                            Js.opaque := false;
                            Js.path := "/";
                            Js.query := None;
                            Js.fragment := None |}
                         Hpg Hmy Huri Hne eq_refl)) "shop").
  - left. reflexivity.
  - reflexivity.
  - vm_compute. reflexivity.
  - discriminate.
Defined.

Lemma connection_needs_a_schema_witness :
  getConnectorWithDatabase_start Js.parse sample_postgres_args
  = Ok (exit "Please provide a database name" 1).
Proof.
  apply (proj1 (proj2 (proj2 (proj2
           (connection_needs_a_schema Js.parse sample_postgres_args))))).
  - intros key H. each_key H.
  - intros key H. each_key H.
  - vm_compute. reflexivity.
Defined.

(** *** introspect/util.ts: the docker host, the connector's database, the
    sanitized URI *)

Lemma with_host_same (credentials : DatabaseCredentials) :
  with_host (cred_host credentials) credentials = credentials.
Proof. now destruct credentials. Qed.

(** X19.  [replaceLocalDockerHost] turns the two docker names of the local
    host into [localhost] and leaves any other host, and every other
    field, as it is; applied to its own result it changes nothing.  The
    one exception is a host that names a property of [Object.prototype]
    ([constructor], [toString], ...): the lookup in the replacement map
    finds the inherited property, and the host of the result is no string
    at all. *)
Theorem replaceLocalDockerHost_spec (credentials : DatabaseCredentials) :
  (match cred_host credentials with
   | Some host => host ∉ Object_prototype
   | None => True
   end ->
   let host' :=
     if bool_decide (cred_host credentials = Some "host.docker.internal"
                     \/ cred_host credentials = Some "docker.for.mac.localhost")
     then Some "localhost" else cred_host credentials in
   replaceLocalDockerHost credentials = replaced (with_host host' credentials) /\
   replaceLocalDockerHost (with_host host' credentials)
   = replaced (with_host host' credentials)) /\
  (forall name, cred_host credentials = Some name -> name ∈ Object_prototype ->
     replaceLocalDockerHost credentials
     = host_inherited_from_prototype name credentials).
Proof.
  split.
  - destruct credentials as [ty [host|] port user password database schema uri];
      cbn [cred_host]; [|intros _; split; reflexivity].
    intros Hproto. unfold replaceLocalDockerHost, replaceMap. cbn [cred_host Js.truthy].
    destruct (decide (host = "")) as [->|Hne]; [split; reflexivity|].
    rewrite (bool_decide_eq_false_2 (host = "")) by exact Hne. cbn [negb default].
    rewrite (bool_decide_eq_false_2 (host ∈ Object_prototype)) by exact Hproto.
    destruct (decide (host = "host.docker.internal")) as [->|H1];
      [split; reflexivity|].
    destruct (decide (host = "docker.for.mac.localhost")) as [->|H2];
      [split; reflexivity|].
    rewrite (bool_decide_eq_false_2 (host = "host.docker.internal")) by exact H1.
    rewrite (bool_decide_eq_false_2 (host = "docker.for.mac.localhost")) by exact H2.
    rewrite bool_decide_eq_false_2 by (intros [[= ?]|[= ?]]; congruence).
    cbn [with_host cred_host Js.truthy default].
    rewrite (bool_decide_eq_false_2 (host = "")) by exact Hne. cbn [negb].
    rewrite (bool_decide_eq_false_2 (host = "host.docker.internal")) by exact H1.
    rewrite (bool_decide_eq_false_2 (host = "docker.for.mac.localhost")) by exact H2.
    rewrite (bool_decide_eq_false_2 (host ∈ Object_prototype)) by exact Hproto.
    split; reflexivity.
  - intros name Hhost Hproto. unfold replaceLocalDockerHost, replaceMap.
    rewrite Hhost. cbn [Js.truthy default].
    assert (name <> "" /\ name <> "host.docker.internal"
            /\ name <> "docker.for.mac.localhost") as (H0 & H1 & H2).
    { repeat split; intros ->; revert Hproto;
        apply (bool_decide_unpack _); reflexivity. }
    rewrite (bool_decide_eq_false_2 (name = "")) by exact H0. cbn [negb].
    rewrite (bool_decide_eq_false_2 (name = "host.docker.internal")) by exact H1.
    rewrite (bool_decide_eq_false_2 (name = "docker.for.mac.localhost")) by exact H2.
    now rewrite (bool_decide_eq_true_2 (name ∈ Object_prototype)).
Qed.

Lemma replaceLocalDockerHost_spec_witness :
  let credentials := sample_host_credentials "host.docker.internal" in
  let host' :=
    if bool_decide (cred_host credentials = Some "host.docker.internal"
                    \/ cred_host credentials = Some "docker.for.mac.localhost")
    then Some "localhost" else cred_host credentials in
  replaceLocalDockerHost credentials = replaced (with_host host' credentials) /\
  replaceLocalDockerHost (with_host host' credentials)
  = replaced (with_host host' credentials).
Proof.
  intros credentials.
  apply (proj1 (replaceLocalDockerHost_spec credentials)).
  apply (bool_decide_unpack _). vm_compute. exact I.
Defined.

Section ConnectorDatabase.

Variable listSchemas : string + list string.
Variable selectSchema : list string -> Result string.

(** X20.  [getConnectorWithDatabase] returns exactly in two cases, after the
    connector has listed its schemas: a database name was given, is not
    empty and is one of the schemas, and is returned; or none was given
    (or an empty one) in interactive mode, and the name is the one the
    dialog returns, which is not checked against the schemas.  The
    database type is handed through. *)
Theorem getConnectorWithDatabase_returns (databaseType : DatabaseType)
    (databaseName : option string) (interactive : bool) (data : ConnectorData) :
  getConnectorWithDatabase listSchemas selectSchema databaseType databaseName
    interactive = Ok data <->
  exists schemas,
    listSchemas = inr schemas /\
    data_databaseType data = databaseType /\
    ((databaseName = Some (data_databaseName data) /\
      data_databaseName data <> "" /\
      data_databaseName data ∈ schemas) \/
     (Js.truthy databaseName = false /\ interactive = true /\
      selectSchema schemas = Ok (data_databaseName data))).
Proof.
  unfold getConnectorWithDatabase. destruct listSchemas as [message|schemas];
    cbn [bind].
  { split; [discriminate | intros (s & [=] & _)]. }
  destruct (Js.truthy databaseName) eqn:Ht; cbn [negb andb].
  - apply truthy_true in Ht as (name & -> & Hname). cbn [default].
    unfold includes. case_bool_decide as Hin; cbn [negb bind]; split.
    + intros [= <-]. exists schemas. cbn. split; [reflexivity|].
      split; [reflexivity|]. left. auto.
    + intros (s & [= <-] & Hty & [(Hn & _ & _)|(Hf & _)]).
      * injection Hn as Hn. destruct data. cbn in *. now subst.
      * discriminate Hf.
    + discriminate.
    + intros (s & [= <-] & Hty & [(Hn & _ & Hmem)|(Hf & _)]).
      * injection Hn as Hn. subst. contradiction.
      * discriminate Hf.
  - destruct interactive; cbn [negb]; split.
    + destruct (selectSchema schemas) as [name|e] eqn:Hsel; cbn [bind];
        [|discriminate].
      intros [= <-]. exists schemas. cbn. split; [reflexivity|].
      split; [reflexivity|]. right. auto.
    + intros (s & [= <-] & Hty & [(Hn & Hne & _)|(_ & _ & Hsel)]).
      * apply truthy_false in Ht as [Hf|Hf]; rewrite Hf in Hn; congruence.
      * rewrite Hsel. cbn [bind]. destruct data. cbn in *. now subst.
    + discriminate.
    + intros (s & _ & _ & [(Hn & Hne & _)|(_ & [=] & _)]).
      apply truthy_false in Ht as [Hf|Hf]; rewrite Hf in Hn; congruence.
Qed.

(** X21.  The errors of [getConnectorWithDatabase], in the order they are
    looked for.  A connector that cannot list its schemas gives "Could not
    connect to database." with the message of its error, whatever the
    other arguments.  Then, no database name outside interactive mode gives
    "Please provide a database name".  Then, a name that is none of the
    schemas gives an error that names it, calls it a schema for Postgres
    and a database otherwise, and lists the schemas there are. *)
Theorem getConnectorWithDatabase_errors (databaseType : DatabaseType)
    (databaseName : option string) (interactive : bool) :
  (forall message, listSchemas = inl message ->
     getConnectorWithDatabase listSchemas selectSchema databaseType databaseName
       interactive
     = Throw (JsError ("Could not connect to database. " +:+ message))) /\
  (forall schemas, listSchemas = inr schemas ->
     Js.truthy databaseName = false -> interactive = false ->
     getConnectorWithDatabase listSchemas selectSchema databaseType databaseName
       interactive
     = Throw (JsError "Please provide a database name")) /\
  (forall schemas name, listSchemas = inr schemas ->
     databaseName = Some name -> name <> "" -> name ∉ schemas ->
     getConnectorWithDatabase listSchemas selectSchema databaseType databaseName
       interactive
     = Throw (JsError ("The provided "
                       +:+ (if bool_decide (databaseType = postgres)
                            then "schema" else "database")
                       +:+ " " +:+ quote +:+ name +:+ quote
                       +:+ " does not exist. The following are available: "
                       +:+ String.concat ", " schemas))).
Proof.
  unfold getConnectorWithDatabase. repeat split.
  - intros message ->. reflexivity.
  - intros schemas -> -> ->. reflexivity.
  - intros schemas name -> -> Hne Hin.
    assert (Js.truthy (Some name) = true) as ->
      by (apply truthy_true; now exists name).
    cbn [bind negb andb default]. unfold includes.
    now rewrite (bool_decide_eq_false_2 _ Hin).
Qed.

End ConnectorDatabase.

Lemma getConnectorWithDatabase_returns_witness :
  getConnectorWithDatabase (inr ["public"; "audit"]) (fun _ => Ok "audit")
    postgres (Some "public") false
  = Ok {| data_databaseType := postgres; data_databaseName := "public" |}.
Proof.
  apply (proj2 (getConnectorWithDatabase_returns (inr ["public"; "audit"])
                  (fun _ => Ok "audit") postgres (Some "public") false
                  {| data_databaseType := postgres; data_databaseName := "public" |})).
  exists ["public"; "audit"]. split; [reflexivity|]. split; [reflexivity|].
  left. split; [reflexivity|]. split; [discriminate|].
  apply (bool_decide_unpack _). vm_compute. exact I.
Defined.

Lemma getConnectorWithDatabase_errors_witness :
  getConnectorWithDatabase (inr ["public"; "audit"]) (fun _ => Ok "audit")
    mysql (Some "shop") true
  = Throw (JsError ("The provided database " +:+ quote +:+ "shop" +:+ quote
                    +:+ " does not exist. The following are available: public, audit")).
Proof.
  apply (proj2 (proj2 (getConnectorWithDatabase_errors (inr ["public"; "audit"])
                         (fun _ => Ok "audit") mysql (Some "shop") true))
           ["public"; "audit"] "shop").
  - reflexivity.
  - reflexivity.
  - discriminate.
  - apply (bool_decide_unpack _). vm_compute. exact I.
Defined.

Section Sanitized.

Variable new_URL : string -> option Js.URL.

Lemma sanitizeMongoUri_sanitized (mongoUri : string) (url : Js.URL) :
  new_URL mongoUri = Some url ->
  sanitizeMongoUri new_URL mongoUri = Ok (Js.toString (sanitized url)).
Proof.
  intros Hurl. unfold sanitizeMongoUri, construct_URL, sanitized.
  rewrite Hurl. cbn [defined bind].
  destruct (decide (Js.pathname url = "/" \/ Js.pathname url = "")) as [Hroot|Hroot].
  - rewrite (bool_decide_eq_true_2 _ Hroot).
    apply root_test in Hroot. now rewrite Hroot.
  - rewrite (bool_decide_eq_false_2 _ Hroot).
    rewrite root_test_false; [reflexivity | tauto | tauto].
Qed.

Lemma set_pathname_opaque (value : string) (url : Js.URL) :
  Js.opaque url = true -> Js.set_pathname value url = url.
Proof. intros Hop. unfold Js.set_pathname. now rewrite Hop. Qed.

Lemma set_pathname_admin (url : Js.URL) :
  Js.opaque url = false -> Js.pathname (Js.set_pathname "admin" url) = "/admin".
Proof. intros Hop. unfold Js.set_pathname. now rewrite Hop. Qed.

(** Sanitizing twice is sanitizing once, at the level of the URL. *)
Lemma sanitized_sanitized (url : Js.URL) : sanitized (sanitized url) = sanitized url.
Proof.
  unfold sanitized.
  destruct (decide (Js.pathname url = "/" \/ Js.pathname url = "")) as [Hroot|Hroot].
  - rewrite (bool_decide_eq_true_2 _ Hroot).
    destruct (Js.opaque url) eqn:Hop.
    + rewrite (set_pathname_opaque _ _ Hop).
      now rewrite (bool_decide_eq_true_2 _ Hroot), (set_pathname_opaque _ _ Hop).
    + rewrite bool_decide_eq_false_2; [reflexivity|].
      rewrite (set_pathname_admin _ Hop). intros [|]; discriminate.
  - rewrite (bool_decide_eq_false_2 _ Hroot).
    now rewrite (bool_decide_eq_false_2 _ Hroot).
Qed.

(** X22.  [sanitizeMongoUri] is idempotent: when the platform parses the
    sanitized URI back into the URL it was serialised from, sanitizing the
    sanitized URI returns it unchanged. *)
Theorem sanitizeMongoUri_idempotent (mongoUri once : string) (url : Js.URL) :
  new_URL mongoUri = Some url ->
  sanitizeMongoUri new_URL mongoUri = Ok once ->
  new_URL once = Some (sanitized url) ->
  sanitizeMongoUri new_URL once = Ok once.
Proof.
  intros Hurl Honce Hback.
  rewrite (sanitizeMongoUri_sanitized mongoUri url Hurl) in Honce.
  injection Honce as <-.
  rewrite (sanitizeMongoUri_sanitized _ _ Hback). now rewrite sanitized_sanitized.
Qed.

(** X23.  Sanitizing keeps the [authSource] parameter: when the platform
    parses the sanitized URI back into the URL it was serialised from,
    [hasAuthSource] answers on the sanitized URI as on the URI given. *)
Theorem sanitizeMongoUri_keeps_authSource (mongoUri once : string) (url : Js.URL) :
  new_URL mongoUri = Some url ->
  sanitizeMongoUri new_URL mongoUri = Ok once ->
  new_URL once = Some (sanitized url) ->
  hasAuthSource new_URL once = hasAuthSource new_URL mongoUri.
Proof.
  intros Hurl Honce Hback. unfold hasAuthSource, construct_URL.
  rewrite Hurl, Hback. cbn [defined bind]. do 2 f_equal.
  unfold JsSearch.searchParams, sanitized, Js.set_pathname.
  destruct (bool_decide _); [|reflexivity]. now destruct (Js.opaque url).
Qed.

(** X24.  The order of the two helpers matters.  On a sanitized URI whose
    path is a list of segments [populateMongoDatabase] never misses a
    database: where the path was empty or ["/"] and no database is given
    it returns [admin].  (The resolver calls [populateMongoDatabase] on the
    URI of the flag, before sanitizing, and so rejects such a URI.) *)
Theorem populate_after_sanitize (mongoUri once : string) (url : Js.URL)
    (database : option string) :
  new_URL mongoUri = Some url ->
  sanitizeMongoUri new_URL mongoUri = Ok once ->
  new_URL once = Some (sanitized url) ->
  Js.opaque url = false ->
  populateMongoDatabase new_URL once database <> Throw MissingDatabaseError /\
  (Js.pathname url = "/" \/ Js.pathname url = "" ->
   Js.truthy database = false ->
   populateMongoDatabase new_URL once database
   = Ok {| mongo_uri := once; mongo_database := "admin" |}).
Proof.
  intros Hurl Honce Hback Hop.
  assert (Js.pathname url = "/" \/ Js.pathname url = "" ->
          Js.pathname (sanitized url) = "/admin") as Hadmin.
  { intros Hroot. unfold sanitized.
    rewrite (bool_decide_eq_true_2 _ Hroot). now apply set_pathname_admin. }
  unfold populateMongoDatabase, construct_URL. rewrite Hback.
  cbn [defined bind]. split.
  - destruct (decide (Js.pathname url = "/" \/ Js.pathname url = "")) as [Hroot|Hroot].
    + rewrite (Hadmin Hroot). cbn. discriminate.
    + unfold sanitized. rewrite (bool_decide_eq_false_2 _ Hroot).
      rewrite root_test_false by tauto. discriminate.
  - intros Hroot Hdb. rewrite (Hadmin Hroot), Hdb. reflexivity.
Qed.

End Sanitized.

Lemma sanitizeMongoUri_idempotent_witness :
  sanitizeMongoUri Js.parse "mongodb://host/admin?authSource=admin"
  = Ok "mongodb://host/admin?authSource=admin".
Proof.
  apply (sanitizeMongoUri_idempotent Js.parse "mongodb://host?authSource=admin"
           "mongodb://host/admin?authSource=admin"
           {| Js.scheme := "mongodb";
              Js.authority := Some "host";
              Js.opaque := false;
              Js.path := "";
              Js.query := Some "authSource=admin";
              Js.fragment := None |}); reflexivity.
Defined.

Lemma sanitizeMongoUri_keeps_authSource_witness :
  hasAuthSource Js.parse "mongodb://host/admin?authSource=admin"
  = hasAuthSource Js.parse "mongodb://host?authSource=admin".
Proof.
  apply (sanitizeMongoUri_keeps_authSource Js.parse "mongodb://host?authSource=admin"
           "mongodb://host/admin?authSource=admin"
           {| Js.scheme := "mongodb";
              Js.authority := Some "host";
              Js.opaque := false;
              Js.path := "";
              Js.query := Some "authSource=admin";
              Js.fragment := None |}); reflexivity.
Defined.

Lemma populate_after_sanitize_witness :
  populateMongoDatabase Js.parse "mongodb://host/admin" None
  <> Throw MissingDatabaseError /\
  (Js.pathname {| Js.scheme := "mongodb";
                  Js.authority := Some "host";
                  Js.opaque := false;
                  Js.path := "";
                  Js.query := None;
                  Js.fragment := None |} = "/" \/
   Js.pathname {| Js.scheme := "mongodb";
                  Js.authority := Some "host";
                  Js.opaque := false;
                  Js.path := "";
                  Js.query := None;
                  Js.fragment := None |} = "" ->
   Js.truthy None = false ->
   populateMongoDatabase Js.parse "mongodb://host/admin" None
   = Ok {| mongo_uri := "mongodb://host/admin"; mongo_database := "admin" |}).
Proof.
  apply (populate_after_sanitize Js.parse "mongodb://host" "mongodb://host/admin"
           {| Js.scheme := "mongodb";
              Js.authority := Some "host";
              Js.opaque := false;
              Js.path := "";
              Js.query := None;
              Js.fragment := None |} None); reflexivity.
Defined.

Example hasAuthSource_examples :
  hasAuthSource Js.parse "mongodb://host/db?ssl=true&authSource=admin" = Ok true /\
  hasAuthSource Js.parse "mongodb://host/db?auth%53ource=admin" = Ok true /\
  hasAuthSource Js.parse "mongodb://host/authSource?ssl=true#authSource=admin"
  = Ok false /\
  hasAuthSource Js.parse "mongodb://host/db?authsource=admin" = Ok false /\
  hasAuthSource Js.parse "host/db" = Throw JsTypeError.
Proof. repeat split; reflexivity. Qed.

(** *** util.ts: the console URL *)

Lemma hex_of_hex_digit (c : ascii) :
  JsSearch.hex (JsUri.hex_digit (nat_of_ascii c / 16)) = Some (nat_of_ascii c / 16)%nat /\
  JsSearch.hex (JsUri.hex_digit (nat_of_ascii c mod 16))
  = Some (nat_of_ascii c mod 16)%nat /\
  ascii_of_nat (16 * (nat_of_ascii c / 16) + nat_of_ascii c mod 16) = c.
Proof.
  destruct c as [[] [] [] [] [] [] [] []]; vm_compute; repeat split.
Qed.

Lemma unreserved_plain (c : ascii) :
  JsUri.unreserved c = true -> c <> "%"%char /\ c <> "+"%char.
Proof.
  destruct c as [[] [] [] [] [] [] [] []]; vm_compute; intros H;
    try discriminate H; split; discriminate.
Qed.

Lemma hex_digit_plain (c : ascii) :
  JsUri.hex_digit (nat_of_ascii c / 16) <> "+"%char /\
  JsUri.hex_digit (nat_of_ascii c mod 16) <> "+"%char.
Proof.
  destruct c as [[] [] [] [] [] [] [] []]; vm_compute; split; discriminate.
Qed.

Lemma percent_decode_encode (s : string) :
  JsSearch.percent_decode (JsUri.encodeURIComponent s) = s.
Proof.
  induction s as [|c r IH]; [reflexivity|].
  cbn [JsUri.encodeURIComponent]. destruct (JsUri.unreserved c) eqn:Hc.
  - cbn [JsSearch.percent_decode].
    rewrite bool_decide_eq_false_2 by (now apply unreserved_plain).
    now rewrite IH.
  - cbn [JsSearch.percent_decode]. rewrite bool_decide_eq_true_2 by reflexivity.
    destruct (hex_of_hex_digit c) as (-> & -> & ->). now rewrite IH.
Qed.

Lemma plus_to_space_encode (s : string) :
  JsSearch.plus_to_space (JsUri.encodeURIComponent s) = JsUri.encodeURIComponent s.
Proof.
  induction s as [|c r IH]; [reflexivity|].
  cbn [JsUri.encodeURIComponent]. destruct (JsUri.unreserved c) eqn:Hc.
  - cbn [JsSearch.plus_to_space].
    rewrite bool_decide_eq_false_2 by (now apply unreserved_plain).
    now rewrite IH.
  - cbn [JsSearch.plus_to_space].
    destruct (hex_digit_plain c) as [H1 H2].
    rewrite (bool_decide_eq_false_2 _ H1), (bool_decide_eq_false_2 _ H2), IH.
    reflexivity.
Qed.

(** The characters an encoded component is made of leave out the marks of
    a query. *)
Lemma encode_has_no_mark (s : string) (mark : ascii) :
  mark ∈ ["&"; "="; "#"; "?"; "/"; "+"]%char ->
  fst (Js.break (Js.is_char mark) (JsUri.encodeURIComponent s))
  = JsUri.encodeURIComponent s.
Proof.
  intros Hmark.
  assert (forall c : ascii,
             (JsUri.unreserved c = true -> Js.is_char mark c = false) /\
             Js.is_char mark "%" = false /\
             Js.is_char mark (JsUri.hex_digit (nat_of_ascii c / 16)) = false /\
             Js.is_char mark (JsUri.hex_digit (nat_of_ascii c mod 16)) = false)
    as Hchars.
  { intros c.
    repeat (apply elem_of_cons in Hmark as [->|Hmark]);
      [| | | | | | inversion Hmark];
      destruct c as [[] [] [] [] [] [] [] []]; vm_compute; repeat split;
      intros; try discriminate; reflexivity. }
  induction s as [|c r IH]; [reflexivity|].
  destruct (Hchars c) as (Hu & Hp & H1 & H2).
  cbn [JsUri.encodeURIComponent]. destruct (JsUri.unreserved c) eqn:Hc.
  - cbn [Js.break]. rewrite (Hu eq_refl).
    destruct (Js.break _ (JsUri.encodeURIComponent r)) as [a b]. cbn in *.
    now rewrite IH.
  - cbn [Js.break]. rewrite Hp, H1, H2.
    destruct (Js.break _ (JsUri.encodeURIComponent r)) as [a b]. cbn in *.
    now rewrite IH.
Qed.

Lemma append_assoc (a b c : string) : (a +:+ b) +:+ c = a +:+ b +:+ c.
Proof.
  induction a as [|x a IH]; [reflexivity|].
  change (String x ((a +:+ b) +:+ c) = String x (a +:+ b +:+ c)). now f_equal.
Qed.

Lemma append_empty (a : string) : a +:+ "" = a.
Proof.
  induction a as [|x a IH]; [reflexivity|].
  change (String x (a +:+ "") = String x a). now f_equal.
Qed.

(** X25.  The console URL carries the project name as its [redirect]
    parameter and nothing else of it: the encoded name holds none of the
    marks [& = # ? / +] of a query, so the name cannot end the parameter
    or add another; and the pair the platform reads from the parameter is
    [redirect] with the project name after a slash.  Without a project
    name (or with an empty one) the URL ends with the token. *)
Theorem consoleURL_redirect (ENV : option string) (token projectName : string) :
  projectName <> "" ->
  consoleURL ENV token (Some projectName)
  = consoleURL ENV token None +:+ "&redirect=/"
      +:+ JsUri.encodeURIComponent projectName /\
  (forall mark, mark ∈ ["&"; "="; "#"; "?"; "/"; "+"]%char ->
     fst (Js.break (Js.is_char mark) (JsUri.encodeURIComponent projectName))
     = JsUri.encodeURIComponent projectName) /\
  JsSearch.pair_of ("redirect=/" +:+ JsUri.encodeURIComponent projectName)
  = ("redirect", "/" +:+ projectName) /\
  consoleURL ENV token (Some "") = consoleURL ENV token None.
Proof.
  intros Hne. repeat split.
  - unfold consoleURL. cbn [Js.truthy default].
    rewrite (bool_decide_eq_false_2 _ Hne). cbn [negb].
    now rewrite append_empty, !append_assoc.
  - intros mark Hmark. now apply encode_has_no_mark.
  - change (JsSearch.pair_of ("redirect=/" +:+ JsUri.encodeURIComponent projectName))
      with ("redirect",
            String "/" (JsSearch.percent_decode
                          (JsSearch.plus_to_space
                             (JsUri.encodeURIComponent projectName)))).
    now rewrite plus_to_space_encode, percent_decode_encode.
Qed.

Lemma consoleURL_redirect_witness :
  consoleURL (Some "DEV") "t0k3n" (Some "my project/a&b")
  = consoleURL (Some "DEV") "t0k3n" None +:+ "&redirect=/"
      +:+ JsUri.encodeURIComponent "my project/a&b" /\
  (forall mark, mark ∈ ["&"; "="; "#"; "?"; "/"; "+"]%char ->
     fst (Js.break (Js.is_char mark) (JsUri.encodeURIComponent "my project/a&b"))
     = JsUri.encodeURIComponent "my project/a&b") /\
  JsSearch.pair_of ("redirect=/" +:+ JsUri.encodeURIComponent "my project/a&b")
  = ("redirect", "/" +:+ "my project/a&b") /\
  consoleURL (Some "DEV") "t0k3n" (Some "") = consoleURL (Some "DEV") "t0k3n" None.
Proof. apply consoleURL_redirect. discriminate. Defined.

Example consoleURL_example :
  consoleURL (Some "DEV") "t0k3n" (Some "my project/a&b")
  = "https://dev.console.graph.cool/token?token=t0k3n&redirect=/my%20project%2Fa%26b" /\
  consoleURL None "t0k3n" None = "https://console.graph.cool/token?token=t0k3n".
Proof. split; reflexivity. Qed.
